(** * WordSearch GUI (search_gui.py): search invoker and result interchange

    A shallow embedding of the parts of [search_gui.py] that carry logic:
    the worker thread's [run], [start_search], [prepare_search_files],
    [load_results], [update_summary], [save_as_csv] and [clear_results],
    together with the pieces of the Python runtime they rest on
    ([str.strip], [str.split], text-mode newline translation, and the
    [csv] module's reader and writer for the default dialect).

    Python strings are sequences of Unicode code points; a text is a list
    of code points [N].  A file is identified with the text that the UTF-8
    text layer decodes from it (encoding and decoding are inverse on such
    text), so only the newline translation of text mode is modelled. *)

From stdpp Require Import gmap strings list fin_maps pretty.
From Stdlib Require Import NArith Ascii.

Open Scope N_scope.

(** ** Python text *)

Abbreviation text := (list N).

(** A Python string literal. *)
Definition py (s : string) : text := N_of_ascii <$> String.list_ascii_of_string s.

Definition LF : N := 10.
Definition CR : N := 13.
Definition COMMA : N := 44.
Definition DQUOTE : N := 34.

(** [Py_UNICODE_ISSPACE]: the code points [str.strip()] removes. *)
Definition isspace (c : N) : bool :=
  ((9 <=? c) && (c <=? 13)) || ((28 <=? c) && (c <=? 32))
  || (c =? 133) || (c =? 160) || (c =? 5760)
  || ((8192 <=? c) && (c <=? 8202))
  || (c =? 8232) || (c =? 8233) || (c =? 8239) || (c =? 8287)
  || (c =? 12288).

Fixpoint drop_while {A} (p : A → bool) (l : list A) : list A :=
  match l with
  | [] => []
  | x :: l' => if p x then drop_while p l' else l
  end.

Definition lstrip (s : text) : text := drop_while isspace s.
Definition rstrip (s : text) : text := reverse (drop_while isspace (reverse s)).

(** [s.strip()] *)
Definition strip (s : text) : text := rstrip (lstrip s).

(** [s.split(sep)] for a one-character separator: always at least one piece. *)
Fixpoint split (sep : N) (s : text) : list text :=
  match s with
  | [] => [[]]
  | c :: s' =>
      if c =? sep then [] :: split sep s'
      else match split sep s' with
           | l :: ls => (c :: l) :: ls
           | [] => [[c]]
           end
  end.

(** Truth value of a string: [if s:]. *)
Definition truthy (s : text) : bool :=
  match s with [] => false | _ => true end.

(** [needle in hay] for strings: substring test. *)
Fixpoint startswith (p s : text) : bool :=
  match p, s with
  | [], _ => true
  | _ :: _, [] => false
  | a :: p', b :: s' => (a =? b) && startswith p' s'
  end.

Fixpoint str_in (needle hay : text) : bool :=
  startswith needle hay ||
  match hay with
  | [] => false
  | _ :: hay' => str_in needle hay'
  end.

(** ** Files

    The file system maps a path to the text of the file stored there. *)

Inductive os_name := nt | posix.

(** [os.linesep] *)
Definition linesep (os : os_name) : text :=
  match os with nt => [CR; LF] | posix => [LF] end.

(** [f.write(s)] on a file opened with the default [newline=None]: every
    ['\n'] written becomes [os.linesep]; returns the new file content. *)
Definition write (os : os_name) (f : text) (s : text) : text :=
  f ++ (s ≫= λ c, if c =? LF then linesep os else [c]).

(** [f.write(s)] on a file opened with [newline='']: nothing is translated. *)
Definition write_raw (f : text) (s : text) : text := f ++ s.

(** Reading a file opened with the default [newline=None]: universal
    newlines, ["\r\n"] and a lone ['\r'] both become ['\n']. *)
Fixpoint read_translate (s : text) : text :=
  match s with
  | [] => []
  | c :: s' =>
      if c =? CR then
        match s' with
        | d :: s'' => if d =? LF then LF :: read_translate s''
                      else LF :: read_translate s'
        | [] => [LF]
        end
      else c :: read_translate s'
  end.

(** [script_dir / name] *)
Definition joinpath (dir name : string) : string := dir +:+ "/" +:+ name.

(** ** prepare_search_files *)

(** One of the two blocks of [prepare_search_files]: the text box content
    [box] is written, line by line, to [script_dir / name]. *)
Definition write_list_file (os : os_name) (script_dir name : string)
    (box : text) (fs : gmap string (list N)) : gmap string (list N) :=
  let terms_text := strip box in
  if truthy terms_text then
    let f := foldl (λ f line,
                      let line := strip line in
                      if truthy line then write os f (line ++ [LF]) else f)
                   [] (split LF terms_text) in
    <[joinpath script_dir name := f]> fs
  else fs.

Definition prepare_search_files (os : os_name) (script_dir : string)
    (terms_edit regex_edit : text) (fs : gmap string (list N))
    : gmap string (list N) :=
  let fs := write_list_file os script_dir ".terms_list" terms_edit fs in
  write_list_file os script_dir ".regex_list" regex_edit fs.

(** ** Exceptions

    Fallible code returns [Ok] or raises; an exception is represented by its
    message [str(e)], which is all the program ever uses of it. *)

Inductive result (A : Type) :=
  | Ok (a : A)
  | Raise (e : text).
Arguments Ok {A} a.
Arguments Raise {A} e.

Definition bind_result {A B} (m : result A) (k : A → result B) : result B :=
  match m with
  | Ok a => k a
  | Raise e => Raise e
  end.

Notation "x <-! m ; k" := (bind_result m (λ x, k))
  (at level 20, m at level 100, k at level 200, right associativity,
   format "x  <-!  m ;  '/' k").

(** ** The csv module, default ('excel') dialect

    delimiter comma, quotechar double quote, no escapechar, doublequote, no
    skipinitialspace, lineterminator ["\r\n"], QUOTE_MINIMAL, not strict.
    The parser states that are entered only on an escapechar are left out.
    The reader and writer follow CPython's [_csv.c] (3.11 and later, where
    a NUL is a character like any other). *)

Inductive ParserState :=
  | START_RECORD | START_FIELD | IN_FIELD
  | IN_QUOTED_FIELD | QUOTE_IN_QUOTED_FIELD | EAT_CRNL.

Global Instance ParserState_eq_dec : EqDecision ParserState.
Proof. solve_decision. Defined.

Record ReaderObj := mkReader {
  state : ParserState;
  fields : list (list N);   (* fields of the record parsed so far *)
  field : list N;           (* the field being collected *)
}.

(** [csv.field_size_limit()], never changed by the program. *)
Definition field_limit : N := 131072.

Definition field_len (self : ReaderObj) : N := N.of_nat (length (field self)).

Definition set_state (s : ParserState) (self : ReaderObj) : ReaderObj :=
  mkReader s (fields self) (field self).

Definition parse_reset : ReaderObj := mkReader START_RECORD [] [].

Definition parse_save_field (self : ReaderObj) : ReaderObj :=
  mkReader (state self) (fields self ++ [field self]) [].

Definition parse_add_char (self : ReaderObj) (c : N) : result ReaderObj :=
  if field_limit <=? field_len self then
    Raise (py "field larger than field limit (131072)")
  else Ok (mkReader (state self) (fields self) (field self ++ [c])).

Definition is_newline (c : N) : bool := (c =? LF) || (c =? CR).

(** The [START_FIELD] case, to which [START_RECORD] falls through.
    The input symbol is [Some c] for a character and [None] for the
    end-of-line marker that follows every line. *)
Definition parse_start_field (self : ReaderObj) (c : option N)
    : result ReaderObj :=
  match c with
  | None => Ok (set_state START_RECORD (parse_save_field self))
  | Some c =>
      if is_newline c then Ok (set_state EAT_CRNL (parse_save_field self))
      else if c =? DQUOTE then Ok (set_state IN_QUOTED_FIELD self)
      else if c =? COMMA then Ok (parse_save_field self)
      else self <-! parse_add_char self c; Ok (set_state IN_FIELD self)
  end.

Definition parse_process_char (self : ReaderObj) (c : option N)
    : result ReaderObj :=
  match state self with
  | START_RECORD =>
      match c with
      | None => Ok self
      | Some ch =>
          if is_newline ch then Ok (set_state EAT_CRNL self)
          else parse_start_field (set_state START_FIELD self) c
      end
  | START_FIELD => parse_start_field self c
  | IN_FIELD =>
      match c with
      | None => Ok (set_state START_RECORD (parse_save_field self))
      | Some c =>
          if is_newline c then Ok (set_state EAT_CRNL (parse_save_field self))
          else if c =? COMMA then
            Ok (set_state START_FIELD (parse_save_field self))
          else parse_add_char self c
      end
  | IN_QUOTED_FIELD =>
      match c with
      | None => Ok self
      | Some c =>
          if c =? DQUOTE then Ok (set_state QUOTE_IN_QUOTED_FIELD self)
          else parse_add_char self c
      end
  | QUOTE_IN_QUOTED_FIELD =>
      match c with
      | None => Ok (set_state START_RECORD (parse_save_field self))
      | Some c =>
          if c =? DQUOTE then
            self <-! parse_add_char self c; Ok (set_state IN_QUOTED_FIELD self)
          else if c =? COMMA then
            Ok (set_state START_FIELD (parse_save_field self))
          else if is_newline c then
            Ok (set_state EAT_CRNL (parse_save_field self))
          else self <-! parse_add_char self c; Ok (set_state IN_FIELD self)
      end
  | EAT_CRNL =>
      match c with
      | None => Ok (set_state START_RECORD self)
      | Some c =>
          if is_newline c then Ok self
          else Raise (py "new-line character seen in unquoted field - do you need to open the file with newline=''?")
      end
  end.

(** The characters of one line, then the end-of-line marker. *)
Fixpoint parse_chars (self : ReaderObj) (line : list N) : result ReaderObj :=
  match line with
  | [] => Ok self
  | c :: line =>
      self <-! parse_process_char self (Some c); parse_chars self line
  end.

Definition parse_line (self : ReaderObj) (line : list N) : result ReaderObj :=
  self <-! parse_chars self line; parse_process_char self None.

(** The records that a reader over the line iterator [input_iter] yields
    when it is run to exhaustion ([Reader_iternext] called until
    [StopIteration]), or the exception that doing so raises.  A record ends
    when the state is back at [START_RECORD] after a line; each call starts
    from [parse_reset]; at the end of the input a field under construction
    is still delivered. *)
Fixpoint csv_reader (self : ReaderObj) (input_iter : list (list N))
    : result (list (list (list N))) :=
  match input_iter with
  | [] =>
      if (0 <? field_len self) || bool_decide (state self = IN_QUOTED_FIELD)
      then Ok [fields (parse_save_field self)]
      else Ok []
  | lineobj :: input_iter =>
      self <-! parse_line self lineobj;
      if bool_decide (state self = START_RECORD) then
        rest <-! csv_reader parse_reset input_iter; Ok (fields self :: rest)
      else csv_reader self input_iter
  end.

(** Iterating over a text file: the lines, each with its ['\n'] kept. *)
Fixpoint readlines (s : list N) : list (list N) :=
  match s with
  | [] => []
  | c :: s' =>
      if c =? LF then [LF] :: readlines s'
      else match readlines s' with
           | l :: ls => (c :: l) :: ls
           | [] => [[c]]
           end
  end.

(** [join_append_data]: the field's characters with every quote doubled,
    and whether the field must be quoted (it contains the delimiter, the
    quotechar or a character of the lineterminator). *)
Definition join_quoted (field : list N) : bool :=
  existsb (λ c, (c =? COMMA) || (c =? DQUOTE) || (c =? CR) || (c =? LF)) field.

Definition join_data (field : list N) : list N :=
  field ≫= λ c, if c =? DQUOTE then [DQUOTE; DQUOTE] else [c].

(** [join_append]: the writer keeps the record so far and the number of
    fields joined. *)
Definition join_append (w : list N * nat) (field : list N) (quoted : bool)
    : list N * nat :=
  let '(rec, num_fields) := w in
  let rec := if (0 <? num_fields)%nat then rec ++ [COMMA] else rec in
  let quoted := quoted || join_quoted field in
  let rec := if quoted then rec ++ [DQUOTE] ++ join_data field ++ [DQUOTE]
             else rec ++ join_data field in
  (rec, S num_fields).

(** [writer.writerow(seq)]: the line handed to the file's [write]. *)
Definition csv_writerow (seq : list (list N)) : list N :=
  let '(rec, num_fields) :=
    foldl (λ w field, join_append w field false) ([], 0%nat) seq in
  let '(rec, num_fields) :=
    if (0 <? num_fields)%nat && negb (truthy rec)
    then join_append ([], pred num_fields) [] true
    else (rec, num_fields) in
  rec ++ [CR; LF].

(** ** The result table (QTableWidget)

    The table always has [columnCount] columns, set once by [init_ui]; a
    cell holds an item with a text, or no item. *)

Definition columnCount : nat := 6.

Definition horizontalHeaderLabels : list (list N) :=
  py <$> ["Type"; "File Path"; "File Name"; "Line"; "Term"; "Match"]%string.

Definition horizontalHeaderItem (col : nat) : option (list N) :=
  horizontalHeaderLabels !! col.

Definition rowCount (t : list (list (option (list N)))) : nat := List.length t.

(** [setRowCount(n)]: rows beyond [n] are dropped, missing rows are added
    without items. *)
Definition setRowCount (n : nat) (t : list (list (option (list N))))
    : list (list (option (list N))) :=
  take n t ++ replicate (n - List.length t) (replicate columnCount None).

(** [setItem(row, col, QTableWidgetItem(s))]: ignored outside the table. *)
Definition setItem (row col : nat) (s : list N)
    (t : list (list (option (list N)))) : list (list (option (list N))) :=
  alter (λ r, <[col := Some s]> r) row t.

(** [item(row, col)]: the item's text, or [None] when the cell has no item. *)
Definition item (row col : nat) (t : list (list (option (list N))))
    : option (list N) :=
  r ← t !! row; c ← r !! col; c.

(** ** The window *)

Inductive icon := Information | Warning | Critical.

Record Dialog := mkDialog { dlg_icon : icon; dlg_title : list N; dlg_text : list N }.

(** What [update_summary] renders into the summary view (the HTML around
    these values is fixed text and theme colours). *)
Record Summary := mkSummary {
  total_matches : nat;
  filename_matches : nat;
  content_matches : nat;
  summary_path : list N;
  summary_case_sensitive : bool;
  terms_count : nat;
  summary_theme : string;
}.

Record ModernSearchGUI := mkGUI {
  script_dir : string;   (* Path(__file__).parent *)
  search_thread : option nat;   (* handle of the worker thread *)
  current_theme : string;
  path_edit : list N;   (* text of the search path field *)
  terms_edit : list N;   (* toPlainText() of the terms box *)
  regex_edit : list N;   (* toPlainText() of the regex box *)
  case_sensitive_cb : bool;
  verbose_cb : bool;
  search_btn_enabled : bool;
  save_btn_enabled : bool;
  progress_bar_visible : bool;
  status_bar : list N;   (* message shown in the status bar *)
  results_table : list (list (option (list N)));   (* rows of item cells *)
  log_output : list (list N);   (* lines appended to the log view *)
  summary_text : option Summary;   (* data of the rendered summary, if any *)
  tabs_index : nat;   (* current tab *)
  dialogs : list Dialog;   (* message boxes raised so far, oldest first *)
}.

Definition set_search_thread (v : option nat) (self : ModernSearchGUI)
    : ModernSearchGUI :=
  mkGUI (script_dir self) v (current_theme self) (path_edit self)
    (terms_edit self) (regex_edit self) (case_sensitive_cb self)
    (verbose_cb self) (search_btn_enabled self) (save_btn_enabled self)
    (progress_bar_visible self) (status_bar self) (results_table self)
    (log_output self) (summary_text self) (tabs_index self) (dialogs self).

Definition set_path_edit (v : list N) (self : ModernSearchGUI)
    : ModernSearchGUI :=
  mkGUI (script_dir self) (search_thread self) (current_theme self) v
    (terms_edit self) (regex_edit self) (case_sensitive_cb self)
    (verbose_cb self) (search_btn_enabled self) (save_btn_enabled self)
    (progress_bar_visible self) (status_bar self) (results_table self)
    (log_output self) (summary_text self) (tabs_index self) (dialogs self).

Definition set_terms_edit (v : list N) (self : ModernSearchGUI)
    : ModernSearchGUI :=
  mkGUI (script_dir self) (search_thread self) (current_theme self)
    (path_edit self) v (regex_edit self) (case_sensitive_cb self)
    (verbose_cb self) (search_btn_enabled self) (save_btn_enabled self)
    (progress_bar_visible self) (status_bar self) (results_table self)
    (log_output self) (summary_text self) (tabs_index self) (dialogs self).

Definition set_regex_edit (v : list N) (self : ModernSearchGUI)
    : ModernSearchGUI :=
  mkGUI (script_dir self) (search_thread self) (current_theme self)
    (path_edit self) (terms_edit self) v (case_sensitive_cb self)
    (verbose_cb self) (search_btn_enabled self) (save_btn_enabled self)
    (progress_bar_visible self) (status_bar self) (results_table self)
    (log_output self) (summary_text self) (tabs_index self) (dialogs self).

Definition set_case_sensitive_cb (v : bool) (self : ModernSearchGUI)
    : ModernSearchGUI :=
  mkGUI (script_dir self) (search_thread self) (current_theme self)
    (path_edit self) (terms_edit self) (regex_edit self) v
    (verbose_cb self) (search_btn_enabled self) (save_btn_enabled self)
    (progress_bar_visible self) (status_bar self) (results_table self)
    (log_output self) (summary_text self) (tabs_index self) (dialogs self).

Definition set_verbose_cb (v : bool) (self : ModernSearchGUI)
    : ModernSearchGUI :=
  mkGUI (script_dir self) (search_thread self) (current_theme self)
    (path_edit self) (terms_edit self) (regex_edit self)
    (case_sensitive_cb self) v (search_btn_enabled self)
    (save_btn_enabled self) (progress_bar_visible self) (status_bar self)
    (results_table self) (log_output self) (summary_text self)
    (tabs_index self) (dialogs self).

Definition set_search_btn_enabled (v : bool) (self : ModernSearchGUI)
    : ModernSearchGUI :=
  mkGUI (script_dir self) (search_thread self) (current_theme self)
    (path_edit self) (terms_edit self) (regex_edit self)
    (case_sensitive_cb self) (verbose_cb self) v (save_btn_enabled self)
    (progress_bar_visible self) (status_bar self) (results_table self)
    (log_output self) (summary_text self) (tabs_index self) (dialogs self).

Definition set_save_btn_enabled (v : bool) (self : ModernSearchGUI)
    : ModernSearchGUI :=
  mkGUI (script_dir self) (search_thread self) (current_theme self)
    (path_edit self) (terms_edit self) (regex_edit self)
    (case_sensitive_cb self) (verbose_cb self) (search_btn_enabled self) v
    (progress_bar_visible self) (status_bar self) (results_table self)
    (log_output self) (summary_text self) (tabs_index self) (dialogs self).

Definition set_progress_bar_visible (v : bool) (self : ModernSearchGUI)
    : ModernSearchGUI :=
  mkGUI (script_dir self) (search_thread self) (current_theme self)
    (path_edit self) (terms_edit self) (regex_edit self)
    (case_sensitive_cb self) (verbose_cb self) (search_btn_enabled self)
    (save_btn_enabled self) v (status_bar self) (results_table self)
    (log_output self) (summary_text self) (tabs_index self) (dialogs self).

Definition set_status_bar (v : list N) (self : ModernSearchGUI)
    : ModernSearchGUI :=
  mkGUI (script_dir self) (search_thread self) (current_theme self)
    (path_edit self) (terms_edit self) (regex_edit self)
    (case_sensitive_cb self) (verbose_cb self) (search_btn_enabled self)
    (save_btn_enabled self) (progress_bar_visible self) v
    (results_table self) (log_output self) (summary_text self)
    (tabs_index self) (dialogs self).

Definition set_results_table (v : list (list (option (list N))))
    (self : ModernSearchGUI)
    : ModernSearchGUI :=
  mkGUI (script_dir self) (search_thread self) (current_theme self)
    (path_edit self) (terms_edit self) (regex_edit self)
    (case_sensitive_cb self) (verbose_cb self) (search_btn_enabled self)
    (save_btn_enabled self) (progress_bar_visible self) (status_bar self) v
    (log_output self) (summary_text self) (tabs_index self) (dialogs self).

Definition set_log_output (v : list (list N)) (self : ModernSearchGUI)
    : ModernSearchGUI :=
  mkGUI (script_dir self) (search_thread self) (current_theme self)
    (path_edit self) (terms_edit self) (regex_edit self)
    (case_sensitive_cb self) (verbose_cb self) (search_btn_enabled self)
    (save_btn_enabled self) (progress_bar_visible self) (status_bar self)
    (results_table self) v (summary_text self) (tabs_index self) (dialogs self).

Definition set_summary_text (v : option Summary) (self : ModernSearchGUI)
    : ModernSearchGUI :=
  mkGUI (script_dir self) (search_thread self) (current_theme self)
    (path_edit self) (terms_edit self) (regex_edit self)
    (case_sensitive_cb self) (verbose_cb self) (search_btn_enabled self)
    (save_btn_enabled self) (progress_bar_visible self) (status_bar self)
    (results_table self) (log_output self) v (tabs_index self) (dialogs self).

Definition set_tabs_index (v : nat) (self : ModernSearchGUI)
    : ModernSearchGUI :=
  mkGUI (script_dir self) (search_thread self) (current_theme self)
    (path_edit self) (terms_edit self) (regex_edit self)
    (case_sensitive_cb self) (verbose_cb self) (search_btn_enabled self)
    (save_btn_enabled self) (progress_bar_visible self) (status_bar self)
    (results_table self) (log_output self) (summary_text self) v (dialogs self).

Definition set_dialogs (v : list Dialog) (self : ModernSearchGUI)
    : ModernSearchGUI :=
  mkGUI (script_dir self) (search_thread self) (current_theme self)
    (path_edit self) (terms_edit self) (regex_edit self)
    (case_sensitive_cb self) (verbose_cb self) (search_btn_enabled self)
    (save_btn_enabled self) (progress_bar_visible self) (status_bar self)
    (results_table self) (log_output self) (summary_text self)
    (tabs_index self) v.
Definition set_current_theme (v : string) (self : ModernSearchGUI)
    : ModernSearchGUI :=
  mkGUI (script_dir self) (search_thread self) v (path_edit self)
    (terms_edit self) (regex_edit self) (case_sensitive_cb self)
    (verbose_cb self) (search_btn_enabled self) (save_btn_enabled self)
    (progress_bar_visible self) (status_bar self) (results_table self)
    (log_output self) (summary_text self) (tabs_index self) (dialogs self).


(** [for i, x in enumerate(l)] *)
Definition enumerate {A} (l : list A) : list (nat * A) := imap (λ i x, (i, x)) l.

Definition clear_results (self : ModernSearchGUI) : ModernSearchGUI :=
  let self := set_results_table (setRowCount 0 (results_table self)) self in
  let self := set_log_output [] self in
  let self := set_summary_text None self in
  set_save_btn_enabled false self.

(** The counting loop of [update_summary]. *)
Definition count_matches (t : list (list (option (list N)))) : nat * nat :=
  foldl (λ '(filename_matches, content_matches) row,
           match item row 0 t with
           | Some search_type =>
               if str_in (py "FileName") search_type
               then (S filename_matches, content_matches)
               else if str_in (py "Content") search_type
               then (filename_matches, S content_matches)
               else (filename_matches, content_matches)
           | None => (filename_matches, content_matches)
           end)
        (0%nat, 0%nat) (seq 0 (rowCount t)).

Definition update_summary (total_matches : nat) (self : ModernSearchGUI)
    : ModernSearchGUI :=
  let '(filename_matches, content_matches) :=
    count_matches (results_table self) in
  let summary :=
    mkSummary total_matches filename_matches content_matches
      (path_edit self) (case_sensitive_cb self)
      (List.length (filter (λ t, truthy (strip t) = true)
                           (split LF (terms_edit self))))
      (current_theme self) in
  set_summary_text (Some summary) self.

(** The body of the [try] in [load_results], once the rows are read. *)
Definition fill_table (rows : list (list (list N)))
    (t : list (list (option (list N)))) : list (list (option (list N))) :=
  foldl (λ t '(row_idx, row),
           foldl (λ t '(col_idx, cell_data), setItem row_idx col_idx cell_data t)
                 t (enumerate (take 6 row)))
        t (enumerate rows).

(** [self.script_dir / 'search_results.csv'] *)
Definition csv_file (self : ModernSearchGUI) : string :=
  joinpath (script_dir self) "search_results.csv".

(** The file [f], opened for reading in text mode with the default newline
    handling, handed to [csv.reader] and read to the end. *)
Definition csv_records (f : list N) : result (list (list (list N))) :=
  csv_reader parse_reset (readlines (read_translate f)).

(** [load_results]: a file that exists is taken to open and to decode, so
    the only exceptions left to the [try] are the reader's. *)
Definition load_results (fs : gmap string (list N)) (self : ModernSearchGUI)
    : ModernSearchGUI :=
  match fs !! csv_file self with
  | None => self
  | Some f =>
      match csv_records f with
      | Ok records =>
          (* headers = next(csv_reader, None); rows = list(csv_reader) *)
          let rows := tail records in
          let t := setRowCount (List.length rows) (results_table self) in
          let self := set_results_table (fill_table rows t) self in
          update_summary (List.length rows) self
      | Raise e =>
          set_dialogs
            (dialogs self ++
               [mkDialog Warning (py "Load Error")
                  (py "Failed to load results:" ++ [LF] ++ e)]) self
      end
  end.

(** [change_theme]: the style sheet aside, the theme is recorded and the
    summary is rendered again when there are results. *)
Definition change_theme (theme_name : string) (self : ModernSearchGUI)
    : ModernSearchGUI :=
  let self := set_current_theme theme_name self in
  if (0 <? rowCount (results_table self))%nat
  then update_summary (rowCount (results_table self)) self
  else self.

(** [item.text() if item else ""] for the cell at [row], [col]. *)
Definition cell_text (row col : nat) (t : list (list (option (list N))))
    : list N :=
  match item row col t with
  | Some s => s
  | None => []
  end.

(** [save_as_csv(file_path)]: the file is opened with [newline=''], so the
    writer's lines reach the file untranslated. *)
Definition save_as_csv (file_path : string) (self : ModernSearchGUI)
    (fs : gmap string (list N)) : gmap string (list N) :=
  let headers :=
    (λ col, match horizontalHeaderItem col with
            | Some header_item => header_item
            | None => py "Column_" ++ py (pretty col)
            end) <$> seq 0 columnCount in
  let f := write_raw [] (csv_writerow headers) in
  let f :=
    foldl (λ f row,
             let row_data :=
               (λ col, cell_text row col (results_table self))
                 <$> seq 0 columnCount in
             write_raw f (csv_writerow row_data))
          f (seq 0 (rowCount (results_table self))) in
  <[file_path := f]> fs.

(** ** The worker thread (SearchThread) *)

Inductive signal :=
  | progress (s : list N)
  | finished (s : list N)
  | error (s : list N).

(** A child process as [run] sees it: what [communicate()] returns (the
    captured standard output and standard error) or raises, and the
    [returncode] it leaves. *)
Record Popen := mkPopen {
  communicate : result (list N * list N);
  returncode : Z;
}.

Record SearchThread := mkThread {
  script_path : string;
  args : list (list N);
  isRunning : bool;
  has_run : bool;   (* the body of [run] has been executed *)
}.

(** [QThread.start()] *)
Definition start (self : SearchThread) : SearchThread :=
  mkThread (script_path self) (args self) true (has_run self).

(** Code that emits signals and may raise: the signals emitted so far are
    threaded through, and survive an exception. *)
Definition Emit (A : Type) : Type := list signal → result A * list signal.

Definition emit_ret {A} (a : A) : Emit A := λ log, (Ok a, log).

Definition emit_bind {A B} (m : Emit A) (k : A → Emit B) : Emit B :=
  λ log, match m log with
         | (Ok a, log) => k a log
         | (Raise e, log) => (Raise e, log)
         end.

Definition emit (s : signal) : Emit unit := λ log, (Ok (), log ++ [s]).

Definition call {A} (r : result A) : Emit A := λ log, (r, log).

(** [try: body except Exception as e: handler] *)
Definition try_except {A} (body : Emit A) (handler : list N → Emit A) : Emit A :=
  λ log, match body log with
         | (Ok a, log) => (Ok a, log)
         | (Raise e, log) => handler e log
         end.

Notation "x <~ m ; k" := (emit_bind m (λ x, k))
  (at level 20, m at level 100, k at level 200, right associativity,
   format "x  <~  m ;  '/' k").
Notation "m ;~ k" := (emit_bind m (λ _, k))
  (at level 100, k at level 200, right associativity,
   format "m  ;~  '/' k").

(** The command line [run] builds, by operating system. *)
Definition run_cmd (os : os_name) (self : SearchThread) : list (list N) :=
  match os with
  | nt => (py <$> ["powershell"; "-ExecutionPolicy"; "Bypass";
                   "-File"; "File-FY.ps1"]%string) ++ args self
  | posix => (py <$> ["bash"; "File-FY.sh"]%string) ++ args self
  end.

(** The signals that report how the search ended. *)
Definition is_outcome (s : signal) : bool :=
  match s with
  | progress _ => false
  | finished _ | error _ => true
  end.

(** [SearchThread.run]; [subprocess_Popen cmd cwd] stands for the operating
    system: it starts the child or raises. *)
Definition run (os : os_name)
    (subprocess_Popen : list (list N) → string → result Popen)
    (self : SearchThread) : Emit unit :=
  try_except
    (emit (progress (py "Starting search...")) ;~
     let cmd := run_cmd os self in
     process <~ call (subprocess_Popen cmd (script_path self));
     out <~ call (communicate process);
     let '(stdout, stderr) := out in
     if (returncode process =? 0)%Z then emit (finished stdout)
     else emit (error (py "Error: " ++ stderr)))
    (λ e, emit (error (py "Failed to run search: " ++ e))).

(** ** The application and its surroundings

    The window, the files on disk, every worker thread created so far and
    the signals queued for the thread that owns the window. *)
Record World := mkWorld {
  gui : ModernSearchGUI;
  fs : gmap string (list N);
  threads : list SearchThread;
  events : list signal;
}.

(** [self.search_thread and self.search_thread.isRunning()] *)
Definition search_thread_running (w : World) : bool :=
  match search_thread (gui w) with
  | Some i =>
      match threads w !! i with
      | Some thr => isRunning thr
      | None => false
      end
  | None => false
  end.

Definition start_search (os : os_name) (w : World) : World :=
  if search_thread_running w then w
  else
    let self := gui w in
    let fs := prepare_search_files os (script_dir self) (terms_edit self)
                (regex_edit self) (fs w) in
    let path := strip (path_edit self) in
    let args :=
      match os with
      | nt =>
          (if truthy path then [py "-SearchPath"; path] else [])
          ++ (if case_sensitive_cb self then [py "-CaseSensitive"] else [])
          ++ (if verbose_cb self then [py "-Verbose"] else [])
      | posix =>
          (if truthy path then [py "-p"; path] else [])
          ++ (if case_sensitive_cb self then [py "-c"] else [])
          ++ (if verbose_cb self then [py "-v"] else [])
      end in
    let self := clear_results self in
    let thr := mkThread (script_dir self) args false false in
    let self := set_search_thread (Some (List.length (threads w))) self in
    let self := set_search_btn_enabled false self in
    let self := set_progress_bar_visible true self in
    let self := set_status_bar (py "Search in progress...") self in
    mkWorld self fs (threads w ++ [start thr]) (events w).

Definition update_progress (message : list N) (self : ModernSearchGUI)
    : ModernSearchGUI :=
  let self := set_log_output (log_output self ++ [message]) self in
  set_status_bar message self.

Definition search_finished (fs : gmap string (list N)) (output : list N)
    (self : ModernSearchGUI) : ModernSearchGUI :=
  let self := set_search_btn_enabled true self in
  let self := set_save_btn_enabled true self in
  let self := set_progress_bar_visible false self in
  let self := set_log_output (log_output self ++ [LF :: output]) self in
  let self := load_results fs self in
  let self := set_status_bar (py "Search completed") self in
  set_tabs_index 0 self.

Definition search_error (error : list N) (self : ModernSearchGUI)
    : ModernSearchGUI :=
  let self := set_search_btn_enabled true self in
  let self := set_progress_bar_visible false self in
  let self :=
    set_log_output (log_output self ++ [LF :: py "ERROR: " ++ error]) self in
  let self := set_status_bar (py "Search failed") self in
  set_dialogs
    (dialogs self ++
       [mkDialog Critical (py "Search Error")
          (py "Search failed:" ++ [LF] ++ error)]) self.

(** The worker of thread [i] executes [run]: its signals are queued for the
    window's thread; the thread is still running. *)
Definition worker_run (os : os_name)
    (subprocess_Popen : list (list N) → string → result Popen)
    (i : nat) (w : World) : World :=
  match threads w !! i with
  | Some thr =>
      if isRunning thr && negb (has_run thr) then
        let '(_, signals) := run os subprocess_Popen thr [] in
        mkWorld (gui w) (fs w)
          (<[i := mkThread (script_path thr) (args thr) true true]> (threads w))
          (events w ++ signals)
      else w
  | None => w
  end.

(** The worker of thread [i] has returned from [run]: the thread is no
    longer running. *)
Definition worker_exit (i : nat) (w : World) : World :=
  match threads w !! i with
  | Some thr =>
      if isRunning thr && has_run thr then
        mkWorld (gui w) (fs w)
          (<[i := mkThread (script_path thr) (args thr) false true]>
             (threads w))
          (events w)
      else w
  | None => w
  end.

(** The window's thread takes a queued signal and calls the connected slot. *)
Definition deliver (w : World) : World :=
  match events w with
  | [] => w
  | s :: queue =>
      let self :=
        match s with
        | progress message => update_progress message (gui w)
        | finished output => search_finished (fs w) output (gui w)
        | error e => search_error e (gui w)
        end in
      mkWorld self (fs w) (threads w) queue
  end.

(** The window as [__init__] leaves it. *)
Definition init_gui (script_dir : string) : ModernSearchGUI :=
  mkGUI script_dir None "Dark Mode" (py ".") [] [] false false
    true false false (py "Ready") [] [] None 0 [].

Definition init_world (script_dir : string) (fs : gmap string (list N))
    : World :=
  mkWorld (init_gui script_dir) fs [] [].

(** What can happen, one event at a time: a click on the search button
    (which takes clicks only while enabled), a worker executing [run], a
    worker ending, a queued signal reaching its slot, the user choosing a
    theme or editing the input fields, and files changing on disk (the
    child process writes its results there). *)
Inductive step (os : os_name) : World → World → Prop :=
  | step_start_search w :
      search_btn_enabled (gui w) = true →
      step os w (start_search os w)
  | step_worker_run w popen i :
      step os w (worker_run os popen i w)
  | step_worker_exit w i :
      step os w (worker_exit i w)
  | step_deliver w :
      step os w (deliver w)
  | step_edit w path terms regex cs verbose :
      step os w
        (mkWorld
           (set_verbose_cb verbose (set_case_sensitive_cb cs
              (set_regex_edit regex (set_terms_edit terms
                 (set_path_edit path (gui w))))))
           (fs w) (threads w) (events w))
  | step_change_theme w theme_name :
      step os w
        (mkWorld (change_theme theme_name (gui w)) (fs w) (threads w)
           (events w))
  | step_disk w fs' :
      step os w (mkWorld (gui w) fs' (threads w) (events w)).

Inductive reachable (os : os_name) : World → Prop :=
  | reachable_init script_dir fs :
      reachable os (init_world script_dir fs)
  | reachable_step w w' :
      reachable os w → step os w w' → reachable os w'.

(** Every running worker is the one the window holds in [search_thread]. *)
Definition running_is_current (w : World) : Prop :=
  ∀ i thr, threads w !! i = Some thr → isRunning thr = true →
           search_thread (gui w) = Some i.

(** A worker that has been started and has yet to execute [run], and the
    number of outcome signals still to reach the window: those queued and
    those that such workers will emit. *)
Definition awaiting (thr : SearchThread) : bool :=
  isRunning thr && negb (has_run thr).

Definition pending_outcomes (w : World) : nat :=
  (List.length (filter (λ s, is_outcome s = true) (events w))
   + List.length (filter (λ thr, awaiting thr = true) (threads w)))%nat.

(** While the search button is enabled no outcome is pending; while it is
    disabled exactly one is, and the table is the one [clear_results] left. *)
Definition one_search_at_a_time (w : World) : Prop :=
  if search_btn_enabled (gui w) then pending_outcomes w = 0%nat
  else pending_outcomes w = 1%nat ∧ results_table (gui w) = [].

(** ** The terms file as the specification words it

    The non-blank lines of the input, each stripped of leading and trailing
    whitespace, in their original order, one per line. *)
Definition nonblank (line : list N) : bool :=
  existsb (λ c, negb (isspace c)) line.

Definition spec_list_file (os : os_name) (input : list N) : list N :=
  concat ((λ line, strip line ++ linesep os)
            <$> filter (λ line, nonblank line = true) (split LF input)).

(** The lines [prepare_search_files] keeps of a text: each piece between
    newlines stripped, the empty ones dropped. *)
Definition kept_lines (t : list N) : list (list N) :=
  filter (λ line, truthy line = true) (strip <$> split LF t).

(** ** Rows of the table

    What a row of the table holds once the cells [cells] have been set on
    it from column 0 on, and the row that the fields of one record make on
    a fresh table: at most six of them, the missing ones without item. *)
Definition fill_cells (cells : list (list N)) (r : list (option (list N)))
    : list (option (list N)) :=
  (Some <$> take (List.length r) cells) ++ drop (List.length cells) r.

Definition row_of_fields (fields : list (list N)) : list (option (list N)) :=
  (Some <$> take 6 fields) ++ replicate (6 - List.length fields) None.

(** ** Comparing result sets

    The six cell values of every row, in order, as the exports read them. *)
Definition cell_values (t : list (list (option (list N))))
    : list (list (list N)) :=
  (λ row, (λ col, cell_text row col t) <$> seq 0 columnCount)
    <$> seq 0 (rowCount t).

(** A text that [load_results] can have put in a cell: universal newlines
    leave no carriage return in what the reader sees, and the reader
    accepts no field longer than [field_limit]. *)
Definition loadable (s : list N) : Prop :=
  (CR ∉ s) ∧ N.of_nat (List.length s) ≤ field_limit.

Definition loadable_cell (cell : option (list N)) : Prop :=
  match cell with
  | Some s => loadable s
  | None => True
  end.

(** A table as the program keeps it: six cells in every row, each without
    item or with a text that was loaded. *)
Definition loaded_table (t : list (list (option (list N)))) : Prop :=
  Forall (λ r, List.length r = columnCount ∧ Forall loadable_cell r) t.

(** ** The reader, symbol by symbol

    The reader's input as one sequence: the characters of the lines, with
    the end-of-line marker after each line; and the reader run over such a
    sequence. *)
Definition symbols (lines : list (list N)) : list (option N) :=
  lines ≫= (λ l, (Some <$> l) ++ [None]).

Fixpoint stream_reader (self : ReaderObj) (syms : list (option N))
    : result (list (list (list N))) :=
  match syms with
  | [] =>
      if (0 <? field_len self) || bool_decide (state self = IN_QUOTED_FIELD)
      then Ok [fields (parse_save_field self)]
      else Ok []
  | c :: syms =>
      self <-! parse_process_char self c;
      match c with
      | None =>
          if bool_decide (state self = START_RECORD) then
            rest <-! stream_reader parse_reset syms; Ok (fields self :: rest)
          else stream_reader self syms
      | Some _ => stream_reader self syms
      end
  end.

(** The symbols of a piece of text that lies inside a line. *)
Definition inner_symbols (a : list N) : list (option N) :=
  a ≫= λ c, if c =? LF then [Some LF; None] else [Some c].

(** What the writer puts out for one field, and for a record of at least
    two fields, before the line terminator. *)
Definition written_field (field : list N) : list N :=
  if join_quoted field then [DQUOTE] ++ join_data field ++ [DQUOTE]
  else join_data field.

Definition written_fields (first : list N) (others : list (list N)) : list N :=
  written_field first ++ concat ((λ f, COMMA :: written_field f) <$> others).

(** The state the reader is in after the characters of a written field,
    entered in state [st]. *)
Definition after_field (st : ParserState) (field : list N) : ParserState :=
  if join_quoted field then QUOTE_IN_QUOTED_FIELD
  else match field with
       | [] => st
       | _ => IN_FIELD
       end.

(** The reader holds only texts that pass for loaded. *)
Definition reader_loadable (self : ReaderObj) : Prop :=
  Forall loadable (fields self) ∧ loadable (field self).

(** ** The first column, as [update_summary] scans it

    The cells of column 0, row by row. *)
Definition first_column (t : list (list (option (list N))))
    : list (option (list N)) :=
  (λ r, c ← r !! 0%nat; c) <$> t.

Definition has_FileName (cell : option (list N)) : bool :=
  match cell with
  | Some search_type => str_in (py "FileName") search_type
  | None => false
  end.

Definition has_Content (cell : option (list N)) : bool :=
  match cell with
  | Some search_type => str_in (py "Content") search_type
  | None => false
  end.

(** What one cell adds to (file-name matches, content matches). *)
Definition count_cell (acc : nat * nat) (cell : option (list N)) : nat * nat :=
  if has_FileName cell then (S acc.1, acc.2)
  else if has_Content cell then (acc.1, S acc.2)
  else acc.

(** ** The exports behind the Save button *)

(** [str.lower()] on code points below 256, which is all a path of this
    model holds; no code point above lowercases to a character of [".csv"]. *)
Definition lower_char (c : N) : N :=
  if ((65 <=? c) && (c <=? 90)) || ((192 <=? c) && (c <=? 214))
     || ((216 <=? c) && (c <=? 222))
  then c + 32 else c.

Definition lower (s : list N) : list N := lower_char <$> s.

(** [s.endswith(suffix)] *)
Definition endswith (s suffix : list N) : bool :=
  startswith (reverse suffix) (reverse s).

(** [header_item.text() if header_item else f"Column_{col}"] *)
Definition header_text (col : nat) : list N :=
  match horizontalHeaderItem col with
  | Some header_item => header_item
  | None => py "Column_" ++ py (pretty col)
  end.

(** [save_as_text(file_path)]: the file is opened with the default newline
    handling, so every ['\n'] written becomes [os.linesep]. *)
Definition save_as_text (os : os_name) (file_path : string)
    (self : ModernSearchGUI) (fs : gmap string (list N))
    : gmap string (list N) :=
  let t := results_table self in
  let f := write os [] (py "WordSearch Results" ++ [LF]) in
  let f := write os f (concat (replicate 50 (py "=")) ++ [LF; LF]) in
  let f := write os f (py "Search Path: " ++ path_edit self ++ [LF]) in
  let f :=
    write os f
      (py "Case Sensitive: "
       ++ (if case_sensitive_cb self then py "Yes" else py "No") ++ [LF]) in
  let f :=
    write os f (py "Total Results: " ++ py (pretty (rowCount t)) ++ [LF; LF]) in
  let f :=
    foldl (λ f row,
             let f :=
               write os f
                 (py "Result #" ++ py (pretty (row + 1)%nat) ++ py ":"
                  ++ [LF]) in
             let f :=
               foldl (λ f col,
                        let header := header_text col in
                        let value := cell_text row col t in
                        write os f
                          (py "  " ++ header ++ py ": " ++ value ++ [LF]))
                     f (seq 0 columnCount) in
             write os f [LF])
          f (seq 0 (rowCount t)) in
  <[file_path := f]> fs.

(** [save_results]: [file_path] is what the file dialog returns (empty
    when cancelled); [open_error p] is the message of the exception that
    opening [p] for writing raises, if it does; [path_name] stands for
    [Path(p).name]. *)
Definition save_results (os : os_name)
    (open_error : string → option (list N)) (path_name : string → list N)
    (file_path : string) (w : World) : World :=
  let self := gui w in
  if (rowCount (results_table self) =? 0)%nat then
    mkWorld
      (set_dialogs
         (dialogs self ++
            [mkDialog Information (py "No Results")
               (py "No search results to save.")]) self)
      (fs w) (threads w) (events w)
  else if negb (truthy (py file_path)) then w
  else
    match open_error file_path with
    | None =>
        let fs :=
          if endswith (lower (py file_path)) (py ".csv")
          then save_as_csv file_path self (fs w)
          else save_as_text os file_path self (fs w) in
        let self :=
          set_dialogs
            (dialogs self ++
               [mkDialog Information (py "Save Successful")
                  (py "Results saved to:" ++ [LF] ++ py file_path)]) self in
        let self :=
          set_status_bar (py "Results saved to " ++ path_name file_path) self in
        mkWorld self fs (threads w) (events w)
    | Some e =>
        mkWorld
          (set_dialogs
             (dialogs self ++
                [mkDialog Critical (py "Save Error")
                   (py "Failed to save results:" ++ [LF] ++ e)]) self)
          (fs w) (threads w) (events w)
    end.

(** The argument list that [start_search] builds for the script. *)
Definition search_args (os : os_name) (self : ModernSearchGUI)
    : list (list N) :=
  let path := strip (path_edit self) in
  match os with
  | nt =>
      (if truthy path then [py "-SearchPath"; path] else [])
      ++ (if case_sensitive_cb self then [py "-CaseSensitive"] else [])
      ++ (if verbose_cb self then [py "-Verbose"] else [])
  | posix =>
      (if truthy path then [py "-p"; path] else [])
      ++ (if case_sensitive_cb self then [py "-c"] else [])
      ++ (if verbose_cb self then [py "-v"] else [])
  end.

(** The keys of the dictionary that [setup_themes] returns: the names the
    theme box offers, and the only ones [change_theme] is called with. *)
Definition theme_names : list string :=
  ["Modern Blue"; "Dark Mode"; "Green Nature"; "Orange Sunset";
   "Purple Pro"; "Red Power"; "Vampire"]%string.

(** ** What the window shows while a search is under way

    With the search button enabled the progress bar is hidden; with it
    disabled the bar shows, the table and the summary are cleared and the
    save button is disabled. *)
Definition searching_ui (w : World) : Prop :=
  if search_btn_enabled (gui w) then progress_bar_visible (gui w) = false
  else progress_bar_visible (gui w) = true
       ∧ results_table (gui w) = []
       ∧ summary_text (gui w) = None
       ∧ save_btn_enabled (gui w) = false.

(** Every worker was created for the directory the program lives in. *)
Definition threads_in_script_dir (w : World) : Prop :=
  ∀ i thr, threads w !! i = Some thr → script_path thr = script_dir (gui w).

(** * Properties *)

(** ** The worker thread *)

(** Two results of the same call are the same result. *)
Ltac settle_calls :=
  simplify_eq;
  repeat match goal with
         | H1 : ?x = _, H2 : ?x = _ |- _ => rewrite H1 in H2; simplify_eq
         end;
  done.

Lemma run_unfold os popen self :
  run os popen self [] =
    match popen (run_cmd os self) (script_path self) with
    | Ok process =>
        match communicate process with
        | Ok (stdout, stderr) =>
            if (returncode process =? 0)%Z
            then (Ok (), [progress (py "Starting search..."); finished stdout])
            else (Ok (), [progress (py "Starting search...");
                          error (py "Error: " ++ stderr)])
        | Raise e =>
            (Ok (), [progress (py "Starting search...");
                     error (py "Failed to run search: " ++ e)])
        end
    | Raise e =>
        (Ok (), [progress (py "Starting search...");
                 error (py "Failed to run search: " ++ e)])
    end.
Proof.
  unfold run, try_except, emit_bind, emit, call; simpl.
  destruct (popen _ _) as [process|e]; [|done].
  destruct (communicate process) as [[stdout stderr]|e]; [|done].
  by destruct (returncode process =? 0)%Z.
Qed.

(** C4: whatever the operating system does with the command, [run] ends
    normally and has emitted exactly one outcome signal after its progress
    note: [finished] with the captured standard output when the child exits
    with code zero, [error] with the captured standard error (after the
    fixed label "Error: ") when it exits with another code, and [error] with
    the exception's message (after "Failed to run search: ") when starting
    the child, or waiting for it, raises. *)
Theorem run_delivers_one_outcome os popen self :
  let r := run os popen self [] in
  r.1 = Ok ()
  ∧ List.length (filter (λ s, is_outcome s = true) r.2) = 1%nat
  ∧ (∀ process stdout stderr,
       popen (run_cmd os self) (script_path self) = Ok process →
       communicate process = Ok (stdout, stderr) →
       (returncode process = 0%Z →
          r.2 = [progress (py "Starting search..."); finished stdout])
       ∧ (returncode process ≠ 0%Z →
          r.2 = [progress (py "Starting search...");
                 error (py "Error: " ++ stderr)]))
  ∧ (∀ e, popen (run_cmd os self) (script_path self) = Raise e →
       r.2 = [progress (py "Starting search...");
              error (py "Failed to run search: " ++ e)])
  ∧ (∀ process e,
       popen (run_cmd os self) (script_path self) = Ok process →
       communicate process = Raise e →
       r.2 = [progress (py "Starting search...");
              error (py "Failed to run search: " ++ e)]).
Proof.
  intros r; subst r; rewrite run_unfold.
  destruct (popen _ _) as [process|e] eqn:Hp.
  - destruct (communicate process) as [[stdout stderr]|e] eqn:Hc.
    + destruct (returncode process =? 0)%Z eqn:Hrc.
      * apply Z.eqb_eq in Hrc.
        repeat split; try done; intros; settle_calls.
      * apply Z.eqb_neq in Hrc.
        repeat split; try done; intros; settle_calls.
    + repeat split; try done; intros; settle_calls.
  - repeat split; try done; intros; settle_calls.
Qed.

(** A child that prints "found" and exits with code 2 while complaining
    "oops": the window is told of the failure, with the complaint. *)
Lemma run_delivers_one_outcome_witness :
  (run posix (λ _ _, Ok (mkPopen (Ok (py "found", py "oops")) 2))
       (mkThread "/opt/ws" [] true false) []).2
  = [progress (py "Starting search..."); error (py "Error: " ++ py "oops")].
Proof.
  destruct (run_delivers_one_outcome posix
              (λ _ _, Ok (mkPopen (Ok (py "found", py "oops")) 2))
              (mkThread "/opt/ws" [] true false)) as (_ & _ & H & _).
  destruct (H (mkPopen (Ok (py "found", py "oops")) 2) (py "found") (py "oops")
              eq_refl eq_refl) as [_ H2].
  apply H2. simpl. lia.
Defined.

(** ** Substring test *)

Lemma startswith_spec p s :
  startswith p s = true ↔ ∃ post, s = p ++ post.
Proof.
  revert s; induction p as [|a p IH]; intros s; simpl.
  - split; [eauto|done].
  - destruct s as [|b s].
    + split; [done|]. by intros [post ?].
    + rewrite andb_true_iff, N.eqb_eq, IH. split.
      * intros [-> [post ->]]. eauto.
      * intros [post ?]. simplify_eq. eauto.
Qed.

(** [str_in] is Python's [in] on strings: the needle occurs as a contiguous
    piece of the haystack. *)
Lemma str_in_spec needle hay :
  str_in needle hay = true ↔ ∃ pre post, hay = pre ++ needle ++ post.
Proof.
  induction hay as [|c hay IH]; simpl.
  - rewrite orb_false_r, startswith_spec. split.
    + intros [post ?]. by exists [], post.
    + intros (pre & post & H). symmetry in H.
      apply app_eq_nil in H as [-> H]. eauto.
  - rewrite orb_true_iff, startswith_spec, IH. split.
    + intros [[post ->]|(pre & post & ->)].
      * by exists [], post.
      * by exists (c :: pre), post.
    + intros (pre & post & H). destruct pre as [|c' pre]; simpl in H.
      * left. eauto.
      * right. simplify_eq. eauto.
Qed.

(** ** update_summary *)

Lemma item_lookup row col (t : list (list (option (list N)))) :
  item row col t = r ← t !! row; c ← r !! col; c.
Proof. done. Qed.

Lemma first_column_seq (t : list (list (option (list N)))) :
  (λ row, item row 0 t) <$> seq 0 (rowCount t) = first_column t.
Proof.
  apply list_eq; intros i. unfold first_column, rowCount.
  rewrite !list_lookup_fmap.
  destruct (decide (i < List.length t)%nat) as [Hi|Hi].
  - rewrite lookup_seq_lt by done. simpl.
    destruct (lookup_lt_is_Some_2 t i Hi) as [r Hr].
    by rewrite item_lookup, Hr.
  - rewrite lookup_seq_ge, lookup_ge_None_2 by lia. done.
Qed.

Lemma count_matches_first_column t :
  count_matches t = foldl count_cell (0%nat, 0%nat) (first_column t).
Proof.
  unfold count_matches. rewrite <- first_column_seq, foldl_fmap.
  generalize (seq 0 (rowCount t)) (0%nat, 0%nat).
  intros l; induction l as [|row l IH]; intros [fm cm]; [done|].
  simpl. rewrite <- IH. f_equal.
  unfold count_cell, has_FileName, has_Content.
  destruct (item row 0 t) as [search_type|]; [|done].
  by repeat case_match.
Qed.

Lemma foldl_count_cell acc col :
  foldl count_cell acc col =
    ((acc.1 + List.length (filter (λ c, has_FileName c = true) col))%nat,
     (acc.2 + List.length
                (filter (λ c, has_FileName c = false ∧ has_Content c = true)
                        col))%nat).
Proof.
  revert acc; induction col as [|c col IH]; intros [fm cm]; simpl.
  - f_equal; lia.
  - rewrite IH. unfold count_cell.
    rewrite !filter_cons.
    destruct (has_FileName c) eqn:Hf, (has_Content c) eqn:Hc;
      repeat case_decide; simpl; try (f_equal; lia); naive_solver.
Qed.

Lemma count_matches_closed t :
  count_matches t =
    (List.length (filter (λ c, has_FileName c = true) (first_column t)),
     List.length
       (filter (λ c, has_FileName c = false ∧ has_Content c = true)
               (first_column t))).
Proof. by rewrite count_matches_first_column, foldl_count_cell. Qed.

Lemma summary_text_update_summary n self :
  summary_text (update_summary n self) =
    Some (mkSummary n (count_matches (results_table self)).1
            (count_matches (results_table self)).2
            (path_edit self) (case_sensitive_cb self)
            (List.length (filter (λ t, truthy (strip t) = true)
                                 (split LF (terms_edit self))))
            (current_theme self)).
Proof.
  unfold update_summary. by destruct (count_matches (results_table self)).
Qed.

(** C8: the two counters of the summary are computed from the first column
    alone: the number of rows whose first cell contains "FileName", and the
    number of rows whose first cell contains "Content" (and was not already
    counted as a file-name match); a row with neither adds nothing.  On a
    table whose first column reads "FileName match", "Content match",
    "FileName match" the summary shows 2 file-name matches, 1 content match
    and a total of 3. *)
Theorem update_summary_scans_first_column :
  (∀ t,
     count_matches t =
       (List.length (filter (λ c, has_FileName c = true) (first_column t)),
        List.length
          (filter (λ c, has_FileName c = false ∧ has_Content c = true)
                  (first_column t))))
  ∧ (∀ t r,
       has_FileName (c ← r !! 0%nat; c) = false →
       has_Content (c ← r !! 0%nat; c) = false →
       count_matches (t ++ [r]) = count_matches t)
  ∧ (∀ self,
       first_column (results_table self) =
         [Some (py "FileName match"); Some (py "Content match");
          Some (py "FileName match")] →
       ∃ s, summary_text
              (update_summary (rowCount (results_table self)) self) = Some s
            ∧ filename_matches s = 2%nat
            ∧ content_matches s = 1%nat
            ∧ total_matches s = 3%nat).
Proof.
  split; [exact count_matches_closed|]. split.
  - intros t r Hf Hc. rewrite !count_matches_first_column.
    unfold first_column. rewrite fmap_app, foldl_app; simpl.
    unfold count_cell. by rewrite Hf, Hc.
  - intros self H. rewrite summary_text_update_summary.
    eexists; split; [done|]. simpl.
    pose proof (f_equal List.length H) as Hlen.
    unfold first_column in Hlen. rewrite length_fmap in Hlen.
    unfold rowCount. by rewrite count_matches_closed, H, Hlen.
Qed.

Lemma update_summary_scans_first_column_witness :
  ∃ s, summary_text
         (update_summary 3
            (set_results_table
               [[Some (py "FileName match"); Some (py "/a/b.txt")];
                [Some (py "Content match"); None];
                [Some (py "FileName match")]]
               (init_gui "/opt/ws"))) = Some s
       ∧ filename_matches s = 2%nat
       ∧ content_matches s = 1%nat
       ∧ total_matches s = 3%nat.
Proof.
  destruct update_summary_scans_first_column as (_ & _ & H).
  apply (H (set_results_table
              [[Some (py "FileName match"); Some (py "/a/b.txt")];
               [Some (py "Content match"); None];
               [Some (py "FileName match")]]
              (init_gui "/opt/ws"))).
  reflexivity.
Defined.

(** ** load_results *)

Lemma load_results_read fs self f records :
  fs !! csv_file self = Some f →
  csv_records f = Ok records →
  load_results fs self =
    update_summary (List.length (tail records))
      (set_results_table
         (fill_table (tail records)
            (setRowCount (List.length (tail records)) (results_table self)))
         self).
Proof. intros Hf Hr. unfold load_results. by rewrite Hf, Hr. Qed.

Lemma results_table_update_summary n self :
  results_table (update_summary n self) = results_table self.
Proof. unfold update_summary. by destruct (count_matches _). Qed.

Lemma dialogs_update_summary n self :
  dialogs (update_summary n self) = dialogs self.
Proof. unfold update_summary. by destruct (count_matches _). Qed.

Lemma search_thread_update_summary n self :
  search_thread (update_summary n self) = search_thread self.
Proof. unfold update_summary. by destruct (count_matches _). Qed.

Lemma search_thread_change_theme theme self :
  search_thread (change_theme theme self) = search_thread self.
Proof.
  unfold change_theme. destruct (0 <? _)%nat; [|done].
  by rewrite search_thread_update_summary.
Qed.

Lemma results_table_change_theme theme self :
  results_table (change_theme theme self) = results_table self.
Proof.
  unfold change_theme. destruct (0 <? _)%nat; [|done].
  by rewrite results_table_update_summary.
Qed.

Lemma search_btn_enabled_change_theme theme self :
  search_btn_enabled (change_theme theme self) = search_btn_enabled self.
Proof.
  unfold change_theme. destruct (0 <? _)%nat; [|done].
  unfold update_summary. by destruct (count_matches _).
Qed.

Lemma search_thread_load_results fs self :
  search_thread (load_results fs self) = search_thread self.
Proof.
  unfold load_results. destruct (fs !! _); [|done].
  destruct (csv_records _); [|done].
  by rewrite search_thread_update_summary.
Qed.

(** C10: a [search_results.csv] that is empty, or that holds a header and
    nothing else, loads without a message box: the table is left with no
    rows and the summary shows a total of 0. *)
Theorem load_results_no_data_rows fs self f :
  fs !! csv_file self = Some f →
  f = [] ∨ (∃ header, csv_records f = Ok [header]) →
  dialogs (load_results fs self) = dialogs self
  ∧ results_table (load_results fs self) = []
  ∧ ∃ s, summary_text (load_results fs self) = Some s
         ∧ total_matches s = 0%nat
         ∧ filename_matches s = 0%nat
         ∧ content_matches s = 0%nat.
Proof.
  intros Hf Hrows.
  assert (∃ records, csv_records f = Ok records ∧ tail records = [])
    as (records & Hr & Ht).
  { destruct Hrows as [->|[header Hh]]; [by exists []|by exists [header]]. }
  rewrite (load_results_read _ _ _ _ Hf Hr), Ht.
  rewrite dialogs_update_summary, results_table_update_summary,
    summary_text_update_summary.
  repeat split; try done. eexists; split; [done|]. done.
Qed.

(** An empty file, and a file holding only the usual header line. *)
Lemma load_results_no_data_rows_witness :
  results_table
    (load_results {[ "/opt/ws/search_results.csv" := [] ]}
       (set_results_table [[Some (py "old")]] (init_gui "/opt/ws"))) = []
  ∧ results_table
      (load_results
         {[ "/opt/ws/search_results.csv" :=
              py "Type,FilePath,FileName,Line,Term,Match" ++ [LF] ]}
         (set_results_table [[Some (py "old")]] (init_gui "/opt/ws"))) = [].
Proof.
  split.
  - apply (load_results_no_data_rows _ _ []); [reflexivity|by left].
  - apply (load_results_no_data_rows _ _
             (py "Type,FilePath,FileName,Line,Term,Match" ++ [LF]));
      [reflexivity|right; eexists; vm_compute; reflexivity].
Defined.

(** ** prepare_search_files: what is left alone *)

Lemma joinpath_inj dir a b : joinpath dir a = joinpath dir b → a = b.
Proof.
  unfold joinpath. induction dir as [|c dir IH]; simpl; intros H.
  - by simplify_eq.
  - apply IH. by simplify_eq.
Qed.

Lemma terms_list_ne_regex_list dir :
  joinpath dir ".regex_list" ≠ joinpath dir ".terms_list".
Proof. intros H. by apply joinpath_inj in H. Qed.

Lemma write_list_file_blank os dir name box (fs : gmap string (list N)) :
  strip box = [] → write_list_file os dir name box fs = fs.
Proof. intros H. unfold write_list_file. by rewrite H. Qed.

Lemma write_list_file_other os dir name box (fs : gmap string (list N)) p :
  p ≠ joinpath dir name → write_list_file os dir name box fs !! p = fs !! p.
Proof.
  intros Hp. unfold write_list_file. destruct (truthy _); [|done].
  by rewrite lookup_insert_ne.
Qed.

Lemma fs_start_search os w :
  fs (start_search os w) = fs w
  ∨ fs (start_search os w) =
      prepare_search_files os (script_dir (gui w)) (terms_edit (gui w))
        (regex_edit (gui w)) (fs w).
Proof. unfold start_search. destruct (search_thread_running w); auto. Qed.

(** C6: a text box that is blank once trimmed leaves its list file alone:
    after [start_search] the path [.terms_list] (resp. [.regex_list]) holds
    what it held before, or still nothing, whatever the other box holds. *)
Theorem blank_box_leaves_list_file os w :
  (strip (terms_edit (gui w)) = [] →
   fs (start_search os w) !! joinpath (script_dir (gui w)) ".terms_list"
   = fs w !! joinpath (script_dir (gui w)) ".terms_list")
  ∧ (strip (regex_edit (gui w)) = [] →
     fs (start_search os w) !! joinpath (script_dir (gui w)) ".regex_list"
     = fs w !! joinpath (script_dir (gui w)) ".regex_list").
Proof.
  split; intros Hblank;
    (destruct (fs_start_search os w) as [->| ->]; [done|]);
    unfold prepare_search_files.
  - rewrite write_list_file_other
      by (apply not_eq_sym, terms_list_ne_regex_list).
    by rewrite write_list_file_blank.
  - rewrite write_list_file_blank by done.
    by rewrite write_list_file_other by apply terms_list_ne_regex_list.
Qed.

(** A stale terms list survives a search started with a blank terms box. *)
Lemma blank_box_leaves_list_file_witness :
  fs (start_search posix
        (mkWorld (set_terms_edit (py "  ") (init_gui "/opt/ws"))
           {[ "/opt/ws/.terms_list" := py "stale" ++ [LF] ]} [] []))
    !! "/opt/ws/.terms_list"
  = Some (py "stale" ++ [LF]).
Proof.
  destruct (blank_box_leaves_list_file posix
              (mkWorld (set_terms_edit (py "  ") (init_gui "/opt/ws"))
                 {[ "/opt/ws/.terms_list" := py "stale" ++ [LF] ]} [] []))
    as [H _].
  etrans; [exact (H eq_refl)|reflexivity].
Defined.

(** ** start_search: one worker at a time *)

Lemma not_running_none_running w :
  running_is_current w → search_thread_running w = false →
  ∀ i thr, threads w !! i = Some thr → isRunning thr = false.
Proof.
  intros Hinv Hrun i thr Hi. destruct (isRunning thr) eqn:Hthr; [|done].
  unfold search_thread_running in Hrun.
  rewrite (Hinv i thr Hi Hthr), Hi in Hrun. congruence.
Qed.

Lemma running_is_current_step os w w' :
  running_is_current w → step os w w' → running_is_current w'.
Proof.
  intros Hinv Hstep.
  destruct Hstep as [w _|w popen i|w i|w|w ? ? ? ? ?|w theme|w fs'].
  - unfold start_search.
    destruct (search_thread_running w) eqn:Hrun; [done|].
    intros j thr; simpl. intros Hj Hthr.
    apply lookup_app_Some in Hj as [Hj|[Hlen Hj]].
    + by rewrite (not_running_none_running w Hinv Hrun j thr Hj) in Hthr.
    + apply list_lookup_singleton_Some in Hj as [Hj _].
      f_equal. lia.
  - unfold worker_run. destruct (threads w !! i) as [thr|] eqn:Hi; [|done].
    destruct (isRunning thr) eqn:Hthr; [|done].
    destruct (negb (has_run thr)); [|done]. simpl.
    destruct (run _ _ _ _) as [r signals].
    intros j thr'; simpl. intros Hj Hthr'.
    destruct (decide (i = j)) as [->|Hne].
    + by apply Hinv with thr.
    + rewrite list_lookup_insert_ne in Hj by done. by apply Hinv with thr'.
  - unfold worker_exit. destruct (threads w !! i) as [thr|] eqn:Hi; [|done].
    destruct (isRunning thr && has_run thr); [|done].
    intros j thr'; simpl. intros Hj Hthr'.
    destruct (decide (i = j)) as [->|Hne].
    + rewrite list_lookup_insert_eq in Hj by by eapply lookup_lt_Some.
      by simplify_eq.
    + rewrite list_lookup_insert_ne in Hj by done. by apply Hinv with thr'.
  - unfold deliver. destruct (events w) as [|s queue]; [done|].
    intros j thr; simpl. intros Hj Hthr.
    rewrite <- (Hinv j thr Hj Hthr).
    destruct s; simpl; [done| |done].
    unfold search_finished; simpl. by rewrite search_thread_load_results.
  - intros j thr; simpl. apply Hinv.
  - intros j thr; cbn [gui threads]. rewrite search_thread_change_theme.
    apply Hinv.
  - intros j thr; simpl. apply Hinv.
Qed.

Lemma reachable_running_is_current os w :
  reachable os w → running_is_current w.
Proof.
  induction 1 as [dir fs0|w w' _ IH Hstep].
  - intros i thr Hi. simpl in Hi. by rewrite lookup_nil in Hi.
  - by eapply running_is_current_step.
Qed.

Lemma filter_none {A} (P : A → Prop) `{!∀ x, Decision (P x)} (l : list A) :
  (∀ x, x ∈ l → ¬ P x) → filter P l = [].
Proof.
  induction l as [|x l IH]; intros Hl; [done|].
  rewrite filter_cons. case_decide as Hx.
  - destruct (Hl x); [left|done].
  - apply IH. intros y Hy. apply Hl. by right.
Qed.

Lemma at_most_one_filter {A} (P : A → Prop) `{!∀ x, Decision (P x)}
    (l : list A) :
  (∀ i j x y, l !! i = Some x → l !! j = Some y → P x → P y → i = j) →
  (List.length (filter P l) ≤ 1)%nat.
Proof.
  induction l as [|x l IH]; intros Hone; [simpl; lia|].
  rewrite filter_cons. case_decide as Hx.
  - assert (filter P l = []) as ->; [|simpl; lia].
    apply filter_none. intros y Hy HPy.
    apply list_elem_of_lookup in Hy as [j Hj].
    by specialize (Hone 0%nat (S j) x y eq_refl Hj Hx HPy).
  - apply IH. intros i j y z Hi Hj Hy Hz.
    by specialize (Hone (S i) (S j) y z Hi Hj Hy Hz); simplify_eq.
Qed.

(** C5: while the worker held in [search_thread] is running, a start-search
    request returns at once and changes nothing: no thread is created (so no
    child process is spawned), no file is written, the results stay, and
    the queue of signals, in which the worker in flight will put its
    outcome, is untouched.  In every state the program can reach, at most
    one worker thread is running. *)
Theorem start_search_while_running_is_noop os :
  (∀ w, search_thread_running w = true → start_search os w = w)
  ∧ (∀ w popen i,
       search_thread_running w = true →
       worker_run os popen i (start_search os w) = worker_run os popen i w
       ∧ deliver (start_search os w) = deliver w)
  ∧ (∀ w, reachable os w →
       (List.length (filter (λ thr, isRunning thr = true) (threads w)) ≤ 1)%nat).
Proof.
  split; [|split].
  - intros w Hrun. unfold start_search. by rewrite Hrun.
  - intros w popen i Hrun. unfold start_search. by rewrite Hrun.
  - intros w Hreach. apply at_most_one_filter.
    intros i j x y Hi Hj Hx Hy.
    pose proof (reachable_running_is_current os w Hreach) as Hinv.
    pose proof (Hinv i x Hi Hx). pose proof (Hinv j y Hj Hy). congruence.
Qed.

(** A second request right after the first, with text in the terms box. *)
Lemma start_search_while_running_is_noop_witness :
  start_search posix
    (start_search posix
       (mkWorld (set_terms_edit (py "needle") (init_gui "/opt/ws")) ∅ [] []))
  = start_search posix
      (mkWorld (set_terms_edit (py "needle") (init_gui "/opt/ws")) ∅ [] []).
Proof.
  destruct (start_search_while_running_is_noop posix) as [H _].
  apply H. reflexivity.
Defined.

(** ** prepare_search_files: what is written *)

Section drop_while.
Context {A : Type} (p : A → bool).

Lemma drop_while_nil l :
  drop_while p l = [] ↔ Forall (λ x, p x = true) l.
Proof.
  induction l as [|x l IH]; simpl; [by split|].
  destruct (p x) eqn:Hx.
  - rewrite IH. split; [by constructor|by inversion 1].
  - split; [done|]. inversion 1; congruence.
Qed.

Lemma Forall_drop_while l :
  Forall (λ x, p x = true) (drop_while p l) ↔ Forall (λ x, p x = true) l.
Proof.
  induction l as [|x l IH]; simpl; [done|].
  destruct (p x) eqn:Hx; [|done].
  rewrite IH. split; [by constructor|by inversion 1].
Qed.

Lemma elem_of_drop_while x l : x ∈ drop_while p l → x ∈ l.
Proof.
  induction l as [|y l IH]; simpl; [done|].
  destruct (p y); [|done]. intros H. right. auto.
Qed.

Lemma drop_while_snoc l x :
  p x = true →
  drop_while p (l ++ [x]) =
    match drop_while p l with [] => [] | _ => drop_while p l ++ [x] end.
Proof.
  intros Hx. induction l as [|y l IH]; simpl; [by rewrite Hx|].
  by destruct (p y).
Qed.
End drop_while.

Lemma rstrip_snoc l c :
  rstrip (l ++ [c]) = if isspace c then rstrip l else l ++ [c].
Proof.
  unfold rstrip. rewrite reverse_snoc; simpl.
  destruct (isspace c); [done|].
  by rewrite reverse_cons, reverse_involutive.
Qed.

Lemma strip_cons_space c l : isspace c = true → strip (c :: l) = strip l.
Proof. intros Hc. unfold strip, lstrip; simpl. by rewrite Hc. Qed.

Lemma strip_snoc_space l c : isspace c = true → strip (l ++ [c]) = strip l.
Proof.
  intros Hc. unfold strip, lstrip. rewrite drop_while_snoc by done.
  destruct (drop_while isspace l) eqn:Hl; [done|].
  by rewrite rstrip_snoc, Hc.
Qed.

Lemma strip_nil l : strip l = [] ↔ Forall (λ c, isspace c = true) l.
Proof.
  unfold strip, rstrip, lstrip.
  rewrite <- (Forall_drop_while isspace l), <- Forall_reverse,
    <- drop_while_nil.
  split; [|by intros ->].
  intros H. by rewrite <- (reverse_involutive (drop_while _ _)), H.
Qed.

Lemma elem_of_strip x l : x ∈ strip l → x ∈ l.
Proof.
  unfold strip, rstrip, lstrip. intros H.
  rewrite elem_of_reverse in H. apply elem_of_drop_while in H.
  rewrite elem_of_reverse in H. by apply elem_of_drop_while in H.
Qed.

Lemma nonblank_false l :
  nonblank l = false ↔ Forall (λ c, isspace c = true) l.
Proof.
  unfold nonblank. induction l as [|c l IH]; simpl; [by split|].
  rewrite orb_false_iff, IH, negb_false_iff.
  split; [intros []; by constructor|by inversion 1].
Qed.

Lemma truthy_strip l : truthy (strip l) = nonblank l.
Proof.
  destruct (nonblank l) eqn:Hl.
  - destruct (strip l) eqn:Hs; [|done].
    apply strip_nil, nonblank_false in Hs. congruence.
  - apply nonblank_false, strip_nil in Hl. by rewrite Hl.
Qed.

Lemma split_cons sep (t : list N) : ∃ l ls, split sep t = l :: ls.
Proof.
  destruct t as [|c t]; simpl; [eauto|].
  destruct (c =? sep); [eauto|]. destruct (split sep t); eauto.
Qed.

Lemma split_snoc_sep sep (t : list N) :
  split sep (t ++ [sep]) = split sep t ++ [[]].
Proof.
  induction t as [|c t IH]; simpl.
  - by rewrite N.eqb_refl.
  - rewrite IH. destruct (c =? sep); [done|].
    by destruct (split_cons sep t) as (l & ls & ->).
Qed.

Lemma split_snoc_other sep (t : list N) c :
  c ≠ sep →
  ∃ init last, split sep t = init ++ [last]
               ∧ split sep (t ++ [c]) = init ++ [last ++ [c]].
Proof.
  intros Hc. induction t as [|d t (init & last & Ht & Htc)]; simpl.
  - exists [], []. by rewrite (proj2 (N.eqb_neq c sep)).
  - rewrite Ht, Htc. destruct (d =? sep).
    + by exists ([] :: init), last.
    + destruct init as [|i init]; simpl.
      * by exists [], (d :: last).
      * by exists ((d :: i) :: init), last.
Qed.

Lemma split_no_sep sep (t : list N) : Forall (λ l, sep ∉ l) (split sep t).
Proof.
  induction t as [|c t IH]; simpl.
  - repeat constructor. by intros ?%elem_of_nil.
  - destruct (c =? sep) eqn:Hc.
    + constructor; [by intros ?%elem_of_nil|done].
    + apply N.eqb_neq in Hc. destruct (split sep t) as [|l ls]; simpl.
      * repeat constructor. rewrite elem_of_cons, elem_of_nil.
        intros [?|[]]. congruence.
      * inversion IH; subst. constructor; [|done].
        rewrite elem_of_cons. intros [?|?]; [congruence|done].
Qed.

Lemma kept_lines_cons_space c t :
  isspace c = true → kept_lines (c :: t) = kept_lines t.
Proof.
  intros Hc. unfold kept_lines; simpl.
  destruct (c =? LF) eqn:Hlf; [done|].
  destruct (split_cons LF t) as (l & ls & ->).
  by rewrite !fmap_cons, strip_cons_space.
Qed.

Lemma kept_lines_snoc_space t c :
  isspace c = true → kept_lines (t ++ [c]) = kept_lines t.
Proof.
  intros Hc. unfold kept_lines.
  destruct (decide (c = LF)) as [->|Hlf].
  - rewrite split_snoc_sep, fmap_app, filter_app. simpl.
    by rewrite app_nil_r.
  - destruct (split_snoc_other LF t c Hlf) as (init & last & -> & ->).
    by rewrite !fmap_app, !fmap_cons, strip_snoc_space.
Qed.

Lemma kept_lines_lstrip t : kept_lines (lstrip t) = kept_lines t.
Proof.
  unfold lstrip. induction t as [|c t IH]; simpl; [done|].
  destruct (isspace c) eqn:Hc; [|done].
  by rewrite IH, kept_lines_cons_space.
Qed.

Lemma kept_lines_rstrip t : kept_lines (rstrip t) = kept_lines t.
Proof.
  induction t as [|c t IH] using rev_ind; [done|].
  rewrite rstrip_snoc. destruct (isspace c) eqn:Hc; [|done].
  by rewrite IH, kept_lines_snoc_space.
Qed.

Lemma kept_lines_strip t : kept_lines (strip t) = kept_lines t.
Proof. unfold strip. by rewrite kept_lines_rstrip, kept_lines_lstrip. Qed.

Lemma kept_lines_nonblank t :
  kept_lines t = strip <$> filter (λ line, nonblank line = true) (split LF t).
Proof.
  unfold kept_lines. induction (split LF t) as [|l ls IH]; [done|].
  rewrite fmap_cons, !filter_cons, IH, truthy_strip.
  by destruct (decide (nonblank l = true)).
Qed.

Lemma write_line os f (line : list N) :
  LF ∉ line → write os f (line ++ [LF]) = f ++ line ++ linesep os.
Proof.
  intros Hline. unfold write. f_equal.
  rewrite bind_app; simpl. rewrite app_nil_r. f_equal.
  induction line as [|c line IH]; [done|].
  apply not_elem_of_cons in Hline as [Hc Hline].
  rewrite bind_cons, IH by done.
  by rewrite (proj2 (N.eqb_neq c LF)) by done.
Qed.

Lemma write_lines os f (ls : list (list N)) :
  Forall (λ l, LF ∉ l) ls →
  foldl (λ f line,
           let line := strip line in
           if truthy line then write os f (line ++ [LF]) else f) f ls
  = f ++ concat ((λ line, line ++ linesep os)
                   <$> filter (λ line, truthy line = true) (strip <$> ls)).
Proof.
  intros Hls; revert f.
  induction Hls as [|l ls Hl _ IH]; intros f; simpl.
  - by rewrite app_nil_r.
  - rewrite IH, filter_cons. destruct (truthy (strip l)) eqn:Ht.
    + rewrite decide_True by done. simpl.
      rewrite write_line; [by rewrite <- !app_assoc|].
      by intros ?%elem_of_strip.
    + by rewrite decide_False by done.
Qed.

Lemma write_list_file_written os dir name box (fs : gmap string (list N)) :
  strip box ≠ [] →
  write_list_file os dir name box fs !! joinpath dir name
  = Some (spec_list_file os box).
Proof.
  intros Hbox. unfold write_list_file, spec_list_file.
  destruct (strip box) eqn:Hs; [done|]. simpl truthy. cbv iota.
  rewrite lookup_insert_eq, <- Hs. f_equal.
  rewrite write_lines by apply split_no_sep. simpl.
  change (filter _ (strip <$> split LF (strip box)))
    with (kept_lines (strip box)).
  rewrite kept_lines_strip, kept_lines_nonblank, <- list_fmap_compose.
  done.
Qed.

(** C3: when the terms box is not blank, [.terms_list] afterwards holds
    exactly the non-blank lines of the box, each stripped of leading and
    trailing whitespace, in their order, each followed by the line
    separator, whatever the file held before; and the same for the regex
    box and [.regex_list].  This is what a search that starts finds on
    disk. *)
Theorem prepare_search_files_writes_lines os :
  (∀ dir terms regex (fs : gmap string (list N)),
     (strip terms ≠ [] →
      prepare_search_files os dir terms regex fs !! joinpath dir ".terms_list"
      = Some (spec_list_file os terms))
     ∧ (strip regex ≠ [] →
        prepare_search_files os dir terms regex fs
          !! joinpath dir ".regex_list"
        = Some (spec_list_file os regex)))
  ∧ (∀ w,
       search_thread_running w = false →
       (strip (terms_edit (gui w)) ≠ [] →
        fs (start_search os w) !! joinpath (script_dir (gui w)) ".terms_list"
        = Some (spec_list_file os (terms_edit (gui w))))
       ∧ (strip (regex_edit (gui w)) ≠ [] →
          fs (start_search os w)
            !! joinpath (script_dir (gui w)) ".regex_list"
          = Some (spec_list_file os (regex_edit (gui w))))).
Proof.
  assert (∀ dir terms regex (fs : gmap string (list N)),
            (strip terms ≠ [] →
             prepare_search_files os dir terms regex fs
               !! joinpath dir ".terms_list"
             = Some (spec_list_file os terms))
            ∧ (strip regex ≠ [] →
               prepare_search_files os dir terms regex fs
                 !! joinpath dir ".regex_list"
               = Some (spec_list_file os regex))) as Hfiles.
  { intros dir terms regex fs.
    unfold prepare_search_files. split; intros Hbox.
    - rewrite write_list_file_other
        by (apply not_eq_sym, terms_list_ne_regex_list).
      by apply write_list_file_written.
    - by apply write_list_file_written. }
  split; [done|]. intros w Hrun. unfold start_search. rewrite Hrun.
  apply Hfiles.
Qed.

Lemma prepare_search_files_writes_lines_witness :
  prepare_search_files posix "/opt/ws"
    (py "  alpha " ++ [LF; LF] ++ py " beta gamma" ++ [LF; 32]) []
    {[ "/opt/ws/.terms_list" := py "stale" ]}
    !! "/opt/ws/.terms_list"
  = Some (py "alpha" ++ [LF] ++ py "beta gamma" ++ [LF]).
Proof.
  destruct (prepare_search_files_writes_lines posix) as [H _].
  destruct (H "/opt/ws"
              (py "  alpha " ++ [LF; LF] ++ py " beta gamma" ++ [LF; 32]) []
              {[ "/opt/ws/.terms_list" := py "stale" ]}) as [Hterms _].
  etrans; [apply Hterms; vm_compute; discriminate|reflexivity].
Defined.

(** ** Every load finds the table cleared *)

Lemma length_filter_insert {A} (P : A → Prop) `{!∀ x, Decision (P x)}
    (l : list A) i x y :
  l !! i = Some x →
  (List.length (filter P (<[i := y]> l)) + (if decide (P x) then 1 else 0)
   = List.length (filter P l) + (if decide (P y) then 1 else 0))%nat.
Proof.
  revert i; induction l as [|z l IH]; intros [|i] Hi; simplify_eq/=.
  - rewrite !filter_cons. repeat case_decide; simpl; lia.
  - rewrite !filter_cons. specialize (IH i Hi).
    destruct (decide (P z)); simpl; lia.
Qed.

Lemma run_one_outcome os popen thr :
  List.length (filter (λ s, is_outcome s = true) (run os popen thr []).2)
  = 1%nat.
Proof.
  rewrite run_unfold. destruct (popen _ _) as [process|e]; [|done].
  destruct (communicate process) as [[stdout stderr]|e]; [|done].
  by destruct (returncode process =? 0)%Z.
Qed.

Lemma search_btn_enabled_load_results fs self :
  search_btn_enabled (load_results fs self) = search_btn_enabled self.
Proof.
  unfold load_results. destruct (fs !! _); [|done].
  destruct (csv_records _); [|done].
  unfold update_summary. by destruct (count_matches _).
Qed.

Lemma results_table_search_finished fs output self :
  results_table (search_finished fs output self)
  = results_table (load_results fs self).
Proof.
  unfold search_finished, load_results, csv_file; simpl.
  destruct (fs !! _); [|done]. destruct (csv_records _); [|done].
  by rewrite !results_table_update_summary.
Qed.

Lemma dialogs_search_finished fs output self :
  dialogs (search_finished fs output self) = dialogs (load_results fs self).
Proof.
  unfold search_finished, load_results, csv_file; simpl.
  destruct (fs !! _); [|done]. destruct (csv_records _); [|done].
  by rewrite !dialogs_update_summary.
Qed.

Lemma one_search_same_gui w w' :
  search_btn_enabled (gui w') = search_btn_enabled (gui w) →
  results_table (gui w') = results_table (gui w) →
  pending_outcomes w' = pending_outcomes w →
  one_search_at_a_time w → one_search_at_a_time w'.
Proof. unfold one_search_at_a_time. by intros -> -> ->. Qed.

Lemma one_search_outcome_delivered w w' :
  search_btn_enabled (gui w') = true →
  pending_outcomes w = S (pending_outcomes w') →
  one_search_at_a_time w → one_search_at_a_time w'.
Proof.
  unfold one_search_at_a_time. intros -> Hp.
  destruct (search_btn_enabled (gui w)); [lia|]. intros [? _]. lia.
Qed.

Lemma one_search_at_a_time_step os w w' :
  one_search_at_a_time w → step os w w' → one_search_at_a_time w'.
Proof.
  intros Hinv Hstep.
  destruct Hstep as [w Hen|w popen i|w i|w|w ? ? ? ? ?|w theme|w fs'].
  - unfold start_search. destruct (search_thread_running w); [done|].
    unfold one_search_at_a_time in *. rewrite Hen in Hinv.
    cbn [gui search_btn_enabled set_status_bar set_progress_bar_visible
           set_search_btn_enabled].
    split; [|done]. unfold pending_outcomes in *.
    cbn [events threads]. rewrite filter_app, length_app.
    rewrite filter_cons, decide_True by done. simpl. lia.
  - unfold worker_run. destruct (threads w !! i) as [thr|] eqn:Hi; [|done].
    destruct (isRunning thr && negb (has_run thr)) eqn:Haw; [|done].
    pose proof (run_one_outcome os popen thr) as Hone.
    destruct (run _ _ _ _) as [r signals].
    apply (one_search_same_gui w); [done..| |done].
    unfold pending_outcomes. cbn [events threads snd] in *.
    rewrite filter_app, length_app, Hone.
    pose proof (length_filter_insert (λ thr, awaiting thr = true) _ _ _
                  (mkThread (script_path thr) (args thr) true true) Hi) as H.
    rewrite decide_True, decide_False in H by done. lia.
  - unfold worker_exit. destruct (threads w !! i) as [thr|] eqn:Hi; [|done].
    destruct (isRunning thr && has_run thr) eqn:Haw; [|done].
    apply (one_search_same_gui w); [done..| |done].
    unfold pending_outcomes. cbn [events threads].
    pose proof (length_filter_insert (λ thr, awaiting thr = true) _ _ _
                  (mkThread (script_path thr) (args thr) false true) Hi) as H.
    apply andb_true_iff in Haw as [_ Hrun].
    rewrite !decide_False in H; [lia|done|].
    unfold awaiting. rewrite Hrun, andb_false_r. done.
  - unfold deliver. destruct (events w) as [|s queue] eqn:He; [done|].
    destruct s as [message|output|e].
    + apply (one_search_same_gui w); [done..| |done].
      unfold pending_outcomes. cbn [events threads]. rewrite He.
      by rewrite filter_cons, decide_False.
    + apply (one_search_outcome_delivered w); [| |done].
      * unfold search_finished; cbn.
        by rewrite search_btn_enabled_load_results.
      * unfold pending_outcomes. cbn [events threads]. rewrite He.
        by rewrite filter_cons, decide_True.
    + apply (one_search_outcome_delivered w); [done| |done].
      unfold pending_outcomes. cbn [events threads]. rewrite He.
      by rewrite filter_cons, decide_True.
  - by apply (one_search_same_gui w).
  - apply (one_search_same_gui w); [| |done..]; cbn [gui].
    + apply search_btn_enabled_change_theme.
    + apply results_table_change_theme.
  - by apply (one_search_same_gui w).
Qed.

Lemma reachable_one_search_at_a_time os w :
  reachable os w → one_search_at_a_time w.
Proof.
  induction 1 as [dir fs0|w w' _ IH Hstep]; [done|].
  by eapply one_search_at_a_time_step.
Qed.

(** In the running program, when a [finished] signal is about to reach
    [search_finished], the table is still as [clear_results] left it. *)
Lemma reachable_finished_cleared os w output queue :
  reachable os w → events w = finished output :: queue →
  results_table (gui w) = [].
Proof.
  intros Hinv%reachable_one_search_at_a_time He.
  unfold one_search_at_a_time, pending_outcomes in Hinv. rewrite He in Hinv.
  rewrite filter_cons, decide_True in Hinv by done. simpl in Hinv.
  destruct (search_btn_enabled (gui w)); [lia|]. by destruct Hinv.
Qed.

Lemma deliver_finished w output queue :
  events w = finished output :: queue →
  gui (deliver w) = search_finished (fs w) output (gui w).
Proof. intros He. unfold deliver. by rewrite He. Qed.

(** C7: when [search_results.csv] is absent, [load_results] returns the
    window exactly as it found it; so when a search has finished and left
    no such file, the table, cleared when the search started, is still
    empty after [search_finished], and no message box has been raised. *)
Theorem load_results_absent :
  (∀ fs self, fs !! csv_file self = None → load_results fs self = self)
  ∧ (∀ os w output queue,
       reachable os w →
       events w = finished output :: queue →
       fs w !! csv_file (gui w) = None →
       results_table (gui (deliver w)) = []
       ∧ dialogs (gui (deliver w)) = dialogs (gui w)).
Proof.
  assert (∀ fs self, fs !! csv_file self = None → load_results fs self = self)
    as Habsent.
  { intros fs self Hf. unfold load_results. by rewrite Hf. }
  split; [done|]. intros os w output queue Hreach He Hf.
  rewrite (deliver_finished _ _ _ He).
  rewrite results_table_search_finished, dialogs_search_finished.
  rewrite (Habsent _ _ Hf).
  split; [|done]. by eapply reachable_finished_cleared.
Qed.

Lemma load_results_absent_witness :
  load_results ∅ (init_gui "/opt/ws") = init_gui "/opt/ws".
Proof.
  destruct load_results_absent as [H _].
  apply (H ∅ (init_gui "/opt/ws")). reflexivity.
Defined.

(** ** load_results: filling the table *)

Lemma enumerate_snoc {A} (l : list A) x :
  enumerate (l ++ [x]) = enumerate l ++ [(List.length l, x)].
Proof.
  unfold enumerate. rewrite imap_app; simpl. by rewrite Nat.add_0_r.
Qed.

Lemma drop_lookup {A} (l : list A) n x :
  l !! n = Some x → drop n l = x :: drop (S n) l.
Proof.
  revert n; induction l as [|y l IH]; intros [|n] H; simplify_eq/=; auto.
Qed.

Lemma fill_cells_snoc cells c (r : list (option (list N))) :
  <[List.length cells := Some c]> (fill_cells cells r)
  = fill_cells (cells ++ [c]) r.
Proof.
  unfold fill_cells. rewrite length_app; simpl.
  destruct (decide (List.length cells < List.length r)%nat) as [Hlt|Hge].
  - destruct (lookup_lt_is_Some_2 r _ Hlt) as [x Hx].
    rewrite (drop_lookup r _ x Hx), !take_ge by (rewrite ?length_app; simpl; lia).
    rewrite insert_app_r_alt by (rewrite length_fmap; lia).
    rewrite length_fmap, Nat.sub_diag; simpl.
    rewrite fmap_app, <- app_assoc. simpl.
    by replace (List.length cells + 1)%nat with (S (List.length cells)) by lia.
  - rewrite !drop_ge, !app_nil_r by lia.
    rewrite take_app_le by lia.
    apply list_insert_ge. rewrite length_fmap, length_take. lia.
Qed.

Lemma fill_row_alter i cells (t : list (list (option (list N)))) :
  foldl (λ t '(col_idx, cell_data), setItem i col_idx cell_data t)
        t (enumerate cells)
  = alter (fill_cells cells) i t.
Proof.
  induction cells as [|c cells IH] using rev_ind.
  - simpl. symmetry. apply list_alter_id. intros r.
    unfold fill_cells. by rewrite take_nil.
  - rewrite enumerate_snoc, foldl_app, IH; simpl.
    unfold setItem. rewrite list_alter_alter_eq.
    apply list_alter_ext; [|done]. intros r _; simpl.
    apply fill_cells_snoc.
Qed.

Lemma fill_table_lookup rows (t : list (list (option (list N)))) i :
  fill_table rows t !! i =
    (λ r, match rows !! i with
          | Some row => fill_cells (take 6 row) r
          | None => r
          end) <$> t !! i.
Proof.
  unfold fill_table. induction rows as [|row rows IH] using rev_ind.
  - simpl. by destruct (t !! i).
  - rewrite enumerate_snoc, foldl_app; simpl.
    rewrite fill_row_alter, list_lookup_alter.
    destruct (decide (List.length rows = i)) as [<-|Hne].
    + rewrite IH, list_lookup_middle, lookup_ge_None_2 by done.
      by destruct (t !! _).
    + rewrite IH. destruct (decide (i < List.length rows)%nat).
      * by rewrite lookup_app_l.
      * by rewrite (lookup_ge_None_2 rows i),
             (lookup_ge_None_2 (rows ++ [row]) i)
          by (rewrite ?length_app; simpl; lia).
Qed.

Lemma length_fill_table rows (t : list (list (option (list N)))) :
  List.length (fill_table rows t) = List.length t.
Proof.
  unfold fill_table. revert t.
  induction (enumerate rows) as [|[i row] l IH]; intros t; simpl; [done|].
  rewrite IH, fill_row_alter. apply length_alter.
Qed.

Lemma length_setRowCount n (t : list (list (option (list N)))) :
  List.length (setRowCount n t) = n.
Proof.
  unfold setRowCount. rewrite length_app, length_take, length_replicate. lia.
Qed.

Lemma fill_cells_blank row :
  fill_cells (take 6 row) (replicate columnCount None) = row_of_fields row.
Proof.
  unfold fill_cells, row_of_fields, columnCount.
  rewrite length_replicate, take_take, drop_replicate, length_take.
  f_equal. f_equal. lia.
Qed.

(** The table that [load_results] builds on a cleared table. *)
Lemma fill_table_fresh rows :
  fill_table rows (setRowCount (List.length rows) [])
  = row_of_fields <$> rows.
Proof.
  apply list_eq; intros i.
  rewrite fill_table_lookup, list_lookup_fmap.
  unfold setRowCount. rewrite take_nil; simpl. rewrite Nat.sub_0_r.
  destruct (rows !! i) as [row|] eqn:Hrow; simpl.
  - rewrite lookup_replicate_2 by by eapply lookup_lt_Some.
    simpl. by rewrite fill_cells_blank.
  - apply lookup_ge_None_1 in Hrow.
    by rewrite (proj1 (lookup_replicate_None _ _ _)) by lia.
Qed.

Lemma item_row_of_fields rows i row col :
  rows !! i = Some row →
  item i col (row_of_fields <$> rows) =
    if decide (col < 6)%nat then row !! col else None.
Proof.
  intros Hrow. rewrite item_lookup, list_lookup_fmap, Hrow; simpl.
  unfold row_of_fields. case_decide as Hcol.
  - destruct (decide (col < List.length row)%nat) as [Hlt|Hge].
    + rewrite lookup_app_l by (rewrite length_fmap, length_take; lia).
      rewrite list_lookup_fmap, lookup_take_lt by done.
      by destruct (row !! col).
    + rewrite lookup_app_r by (rewrite length_fmap, length_take; lia).
      rewrite length_fmap, length_take.
      rewrite (lookup_ge_None_2 row col) by lia.
      rewrite lookup_replicate_2 by lia. done.
  - rewrite lookup_ge_None_2; [done|].
    rewrite length_app, length_fmap, length_take, length_replicate. lia.
Qed.

(** ** The total that update_summary is given *)

Lemma count_matches_le_rowCount t :
  ((count_matches t).1 + (count_matches t).2 ≤ rowCount t)%nat.
Proof.
  rewrite count_matches_closed; simpl. unfold rowCount, first_column.
  induction t as [|r t IH]; [done|].
  rewrite fmap_cons, !filter_cons. simpl.
  repeat case_decide; simpl; try lia.
  destruct_and!; congruence.
Qed.

Lemma rowCount_load_results fs self f records :
  fs !! csv_file self = Some f →
  csv_records f = Ok records →
  rowCount (results_table (load_results fs self)) = List.length (tail records).
Proof.
  intros Hf Hr. rewrite (load_results_read _ _ _ _ Hf Hr).
  rewrite results_table_update_summary; simpl. unfold rowCount.
  by rewrite length_fill_table, length_setRowCount.
Qed.

(** C9: a row adds to at most one of the two counters; a first cell that
    contains both "FileName" and "Content" counts as a file-name match
    only; so the two counters together never exceed the total that the
    summary shows, which both [load_results] and [change_theme] make the
    number of rows, and they can stay below it. *)
Theorem update_summary_counts_each_row_once :
  (∀ t r,
     let before := count_matches t in
     let after := count_matches (t ++ [r]) in
     after = before
     ∨ after = (S before.1, before.2)
     ∨ after = (before.1, S before.2))
  ∧ (∀ t r,
       has_FileName (c ← r !! 0%nat; c) = true →
       has_Content (c ← r !! 0%nat; c) = true →
       count_matches (t ++ [r])
       = (S (count_matches t).1, (count_matches t).2))
  ∧ (∀ fs self f records,
       fs !! csv_file self = Some f →
       csv_records f = Ok records →
       ∃ s, summary_text (load_results fs self) = Some s
            ∧ total_matches s
              = rowCount (results_table (load_results fs self))
            ∧ (filename_matches s + content_matches s ≤ total_matches s)%nat)
  ∧ (∀ theme_name self,
       (0 < rowCount (results_table self))%nat →
       ∃ s, summary_text (change_theme theme_name self) = Some s
            ∧ total_matches s = rowCount (results_table self)
            ∧ (filename_matches s + content_matches s ≤ total_matches s)%nat)
  ∧ (∃ self s,
       summary_text (update_summary (rowCount (results_table self)) self)
       = Some s
       ∧ (filename_matches s + content_matches s < total_matches s)%nat).
Proof.
  split; [|split; [|split; [|split]]].
  - intros t r before after; subst before after.
    rewrite !count_matches_first_column.
    unfold first_column. rewrite fmap_app, foldl_app; simpl.
    unfold count_cell. repeat case_match; auto.
  - intros t r Hf _. rewrite !count_matches_first_column.
    unfold first_column. rewrite fmap_app, foldl_app; simpl.
    unfold count_cell. by rewrite Hf.
  - intros fs self f records Hf Hr.
    rewrite (rowCount_load_results _ _ _ _ Hf Hr).
    rewrite (load_results_read _ _ _ _ Hf Hr), summary_text_update_summary.
    eexists; split; [done|]. split; [done|]. cbn.
    etrans; [apply count_matches_le_rowCount|]. unfold rowCount.
    by rewrite length_fill_table, length_setRowCount.
  - intros theme_name self Hrows. unfold change_theme.
    cbn [results_table set_current_theme].
    rewrite (proj2 (Nat.ltb_lt _ _)) by done.
    rewrite summary_text_update_summary.
    eexists; split; [done|]. split; [done|]. cbn.
    apply count_matches_le_rowCount.
  - exists (set_results_table [[Some (py "Summary")]] (init_gui "/opt/ws")).
    eexists. rewrite summary_text_update_summary. split; [done|].
    vm_compute. lia.
Qed.

Lemma update_summary_counts_each_row_once_witness :
  count_matches ([[Some (py "Content match")]]
                   ++ [[Some (py "FileName in Content")]])
  = (1%nat, 1%nat).
Proof.
  destruct update_summary_counts_each_row_once as (_ & H & _).
  apply (H [[Some (py "Content match")]] [Some (py "FileName in Content")]);
    reflexivity.
Defined.

(** C2: when [search_results.csv] holds a header record followed by the
    records [rows], [load_results], run on the cleared table (as it is
    whenever a finished search calls it), raises no message box and leaves
    a table of exactly [length rows] rows, row [i] made from record [i]
    after the header: each of its six cells holds the field at that
    position, verbatim, or no item when the record has no such field, and
    fields past the sixth appear nowhere. *)
Theorem load_results_rows f header rows :
  csv_records f = Ok (header :: rows) →
  (∀ fs self,
     results_table self = [] →
     fs !! csv_file self = Some f →
     dialogs (load_results fs self) = dialogs self
     ∧ rowCount (results_table (load_results fs self)) = List.length rows
     ∧ results_table (load_results fs self) = row_of_fields <$> rows)
  ∧ (∀ os w output queue,
       reachable os w →
       events w = finished output :: queue →
       fs w !! csv_file (gui w) = Some f →
       dialogs (gui (deliver w)) = dialogs (gui w)
       ∧ results_table (gui (deliver w)) = row_of_fields <$> rows)
  ∧ (∀ i row,
       rows !! i = Some row →
       List.length <$> (row_of_fields <$> rows) !! i = Some 6%nat
       ∧ (∀ col, (col < 6)%nat →
            item i col (row_of_fields <$> rows) = row !! col)
       ∧ (∀ col, (6 ≤ col)%nat →
            item i col (row_of_fields <$> rows) = None)).
Proof.
  intros Hr.
  assert (∀ fs self,
            results_table self = [] →
            fs !! csv_file self = Some f →
            dialogs (load_results fs self) = dialogs self
            ∧ results_table (load_results fs self) = row_of_fields <$> rows)
    as Hload.
  { intros fs self Hclear Hf. rewrite (load_results_read _ _ _ _ Hf Hr).
    rewrite dialogs_update_summary, results_table_update_summary; simpl.
    rewrite Hclear. split; [done|]. apply fill_table_fresh. }
  split; [|split].
  - intros fs self Hclear Hf.
    destruct (Hload fs self Hclear Hf) as [Hd Ht].
    repeat split; [done| |done]. unfold rowCount. by rewrite Ht, length_fmap.
  - intros os w output queue Hreach He Hf.
    rewrite (deliver_finished _ _ _ He).
    rewrite results_table_search_finished, dialogs_search_finished.
    apply Hload; [|done]. by eapply reachable_finished_cleared.
  - intros i row Hrow. split; [|split].
    + rewrite list_lookup_fmap, Hrow; simpl. f_equal.
      unfold row_of_fields.
      rewrite length_app, length_fmap, length_take, length_replicate. lia.
    + intros col Hcol. rewrite (item_row_of_fields _ _ _ _ Hrow).
      by rewrite decide_True.
    + intros col Hcol. rewrite (item_row_of_fields _ _ _ _ Hrow).
      by rewrite decide_False by lia.
Qed.

(** Two records after the header: one with eight fields, one with two. *)
Lemma load_results_rows_witness :
  results_table
    (load_results
       {[ "/opt/ws/search_results.csv" :=
            py "Type,FilePath,FileName,Line,Term,Match" ++ [LF]
            ++ py "a,b,c,d,e,f,g,h" ++ [LF] ++ py "x,y" ++ [LF] ]}
       (init_gui "/opt/ws"))
  = [ Some <$> (py <$> ["a"; "b"; "c"; "d"; "e"; "f"]%string);
      [Some (py "x"); Some (py "y"); None; None; None; None] ].
Proof.
  destruct (load_results_rows
              (py "Type,FilePath,FileName,Line,Term,Match" ++ [LF]
               ++ py "a,b,c,d,e,f,g,h" ++ [LF] ++ py "x,y" ++ [LF])
              (py <$> ["Type"; "FilePath"; "FileName"; "Line"; "Term";
                       "Match"]%string)
              [py <$> ["a"; "b"; "c"; "d"; "e"; "f"; "g"; "h"]%string;
               py <$> ["x"; "y"]%string])
    as (H & _ & _).
  - vm_compute. reflexivity.
  - destruct (H {[ "/opt/ws/search_results.csv" :=
                     py "Type,FilePath,FileName,Line,Term,Match" ++ [LF]
                     ++ py "a,b,c,d,e,f,g,h" ++ [LF] ++ py "x,y" ++ [LF] ]}
                (init_gui "/opt/ws")) as (_ & _ & Ht).
    + reflexivity.
    + reflexivity.
    + etrans; [exact Ht|reflexivity].
Defined.

(** ** The csv reader on what the csv writer wrote *)

Lemma bind_result_assoc {A B C} (m : result A) (f : A → result B)
    (g : B → result C) :
  bind_result (bind_result m f) g = bind_result m (λ a, bind_result (f a) g).
Proof. by destruct m. Qed.

Lemma stream_reader_chars self l K :
  stream_reader self ((Some <$> l) ++ K)
  = self <-! parse_chars self l; stream_reader self K.
Proof.
  revert self; induction l as [|c l IH]; intros self; simpl; [done|].
  destruct (parse_process_char self (Some c)) as [self'|e]; simpl; [|done].
  apply IH.
Qed.

Lemma csv_reader_stream self lines :
  csv_reader self lines = stream_reader self (symbols lines).
Proof.
  revert self; induction lines as [|l lines IH]; intros self; [done|].
  unfold symbols. rewrite bind_cons, <- app_assoc.
  rewrite stream_reader_chars. simpl. unfold parse_line.
  rewrite bind_result_assoc.
  destruct (parse_chars self l) as [self'|e]; simpl; [|done].
  destruct (parse_process_char self' None) as [self''|e]; simpl; [|done].
  by rewrite !IH.
Qed.

Lemma readlines_nil t : readlines t = [] → t = [].
Proof.
  destruct t as [|c t]; simpl; [done|].
  destruct (c =? LF); [done|]. by destruct (readlines t).
Qed.

Lemma symbols_cons l ls :
  symbols (l :: ls) = (Some <$> l) ++ None :: symbols ls.
Proof. unfold symbols. by rewrite bind_cons, <- app_assoc. Qed.

Lemma inner_symbols_cons c a :
  inner_symbols (c :: a)
  = (if c =? LF then [Some LF; None] else [Some c]) ++ inner_symbols a.
Proof. unfold inner_symbols. by rewrite bind_cons. Qed.

Lemma join_data_cons c f :
  join_data (c :: f)
  = (if c =? DQUOTE then [DQUOTE; DQUOTE] else [c]) ++ join_data f.
Proof. unfold join_data. by rewrite bind_cons. Qed.

Lemma readlines_cons c t :
  readlines (c :: t) =
    if c =? LF then [LF] :: readlines t
    else match readlines t with
         | l :: ls => (c :: l) :: ls
         | [] => [[c]]
         end.
Proof. done. Qed.

Lemma symbols_readlines a rest :
  symbols (readlines (a ++ LF :: rest))
  = inner_symbols a ++ Some LF :: None :: symbols (readlines rest).
Proof.
  induction a as [|c a IH].
  - by rewrite app_nil_l, readlines_cons, N.eqb_refl, symbols_cons.
  - rewrite <- app_comm_cons, readlines_cons, inner_symbols_cons.
    destruct (c =? LF) eqn:Hc.
    + apply N.eqb_eq in Hc as ->. by rewrite symbols_cons, IH.
    + destruct (readlines (a ++ LF :: rest)) as [|l ls] eqn:Hl.
      { apply readlines_nil in Hl. by destruct a. }
      rewrite <- app_assoc, <- IH. by rewrite !symbols_cons.
Qed.

Lemma parse_add_char_ok self c :
  N.of_nat (List.length (field self)) < field_limit →
  parse_add_char self c
  = Ok (mkReader (state self) (fields self) (field self ++ [c])).
Proof.
  intros H. unfold parse_add_char, field_len.
  by rewrite (proj2 (N.leb_gt _ _)).
Qed.

Lemma inner_symbols_app a b :
  inner_symbols (a ++ b) = inner_symbols a ++ inner_symbols b.
Proof. apply bind_app. Qed.

Lemma length_snoc_bound {A} (acc : list A) c f :
  N.of_nat (List.length (acc ++ c :: f)) ≤ field_limit →
  N.of_nat (List.length acc) < field_limit
  ∧ N.of_nat (List.length ((acc ++ [c]) ++ f)) ≤ field_limit.
Proof. rewrite <- app_assoc. rewrite !length_app; simpl. lia. Qed.

(** One step of the reader from a known state. *)
Ltac reader_step :=
  cbn [stream_reader app];
  unfold parse_process_char, parse_start_field, set_state, parse_save_field,
    is_newline;
  cbn [state fields field bind_result];
  rewrite ?N.eqb_refl;
  try change (LF =? DQUOTE) with false;
  try change (LF =? COMMA) with false;
  try change (LF =? CR) with false;
  try change (COMMA =? DQUOTE) with false;
  try change (COMMA =? LF) with false;
  try change (COMMA =? CR) with false;
  try change (DQUOTE =? COMMA) with false;
  try change (DQUOTE =? LF) with false;
  try change (DQUOTE =? CR) with false;
  cbn [orb];
  rewrite ?parse_add_char_ok by done;
  cbn [state fields field bind_result bool_decide decide_rel].

(** Inside the quotes: every character of the field is collected, a
    doubled quote as one quote, a newline across the end of its line. *)
Lemma stream_reader_quoted_body f acc fs K :
  N.of_nat (List.length (acc ++ f)) ≤ field_limit →
  stream_reader (mkReader IN_QUOTED_FIELD fs acc)
    (inner_symbols (join_data f) ++ K)
  = stream_reader (mkReader IN_QUOTED_FIELD fs (acc ++ f)) K.
Proof.
  revert acc; induction f as [|c f IH]; intros acc Hlen.
  - by rewrite app_nil_r.
  - apply length_snoc_bound in Hlen as [Hacc Hlen].
    rewrite join_data_cons, inner_symbols_app, <- app_assoc.
    replace (acc ++ c :: f) with ((acc ++ [c]) ++ f)
      by by rewrite <- app_assoc.
    rewrite <- (IH (acc ++ [c])) by done.
    destruct (c =? DQUOTE) eqn:Hq.
    + apply N.eqb_eq in Hq as ->.
      change (inner_symbols [DQUOTE; DQUOTE])
        with [Some DQUOTE; Some DQUOTE].
      by do 2 reader_step.
    + rewrite inner_symbols_cons.
      destruct (c =? LF) eqn:Hlf.
      * apply N.eqb_eq in Hlf as ->. by do 2 reader_step.
      * reader_step. rewrite Hq. by reader_step.
Qed.

Lemma join_quoted_cons c f :
  join_quoted (c :: f) = false →
  (c =? COMMA) = false ∧ (c =? DQUOTE) = false ∧ (c =? CR) = false
  ∧ (c =? LF) = false ∧ join_quoted f = false.
Proof.
  unfold join_quoted; simpl. rewrite !orb_false_iff. tauto.
Qed.

(** Outside quotes: a field without special characters is collected as is. *)
Lemma stream_reader_plain_body f acc fs K :
  join_quoted f = false →
  N.of_nat (List.length (acc ++ f)) ≤ field_limit →
  stream_reader (mkReader IN_FIELD fs acc) (inner_symbols (join_data f) ++ K)
  = stream_reader (mkReader IN_FIELD fs (acc ++ f)) K.
Proof.
  revert acc; induction f as [|c f IH]; intros acc Hf Hlen.
  - by rewrite app_nil_r.
  - apply length_snoc_bound in Hlen as [Hacc Hlen].
    apply join_quoted_cons in Hf as (Hc & Hq & Hcr & Hlf & Hf).
    rewrite join_data_cons, inner_symbols_app, <- app_assoc.
    replace (acc ++ c :: f) with ((acc ++ [c]) ++ f)
      by by rewrite <- app_assoc.
    rewrite <- (IH (acc ++ [c])) by done.
    rewrite Hq, inner_symbols_cons, Hlf.
    reader_step. unfold is_newline. rewrite Hlf, Hcr, Hc.
    by reader_step.
Qed.

(** A written field, read from the start of a record or of a field. *)
Lemma stream_reader_field st f fs K :
  st = START_RECORD ∨ st = START_FIELD →
  N.of_nat (List.length f) ≤ field_limit →
  stream_reader (mkReader st fs []) (inner_symbols (written_field f) ++ K)
  = stream_reader (mkReader (after_field st f) fs f) K.
Proof.
  intros Hst Hlen. unfold written_field, after_field.
  destruct (join_quoted f) eqn:Hf.
  - rewrite !inner_symbols_app, <- !app_assoc.
    change (inner_symbols [DQUOTE]) with [Some DQUOTE].
    destruct Hst as [-> | ->]; reader_step;
      rewrite (stream_reader_quoted_body f []) by done; by reader_step.
  - destruct f as [|c f]; [done|].
    apply join_quoted_cons in Hf as (Hc & Hq & Hcr & Hlf & Hf).
    rewrite join_data_cons, Hq, inner_symbols_app, inner_symbols_cons, Hlf,
      <- !app_assoc.
    assert (N.of_nat (List.length (@nil N)) < field_limit) by done.
    change (inner_symbols []) with (@nil (option N)).
    destruct Hst as [-> | ->]; reader_step; rewrite Hlf, Hcr, Hq, Hc;
      reader_step; by rewrite (stream_reader_plain_body f [c]).
Qed.

Lemma stream_reader_comma st f fs K :
  st = START_RECORD ∨ st = START_FIELD →
  stream_reader (mkReader (after_field st f) fs f) (Some COMMA :: K)
  = stream_reader (mkReader START_FIELD (fs ++ [f]) []) K.
Proof.
  intros Hst. unfold after_field.
  destruct (join_quoted f); [by reader_step|].
  destruct f as [|c f]; [|by reader_step].
  destruct Hst as [-> | ->]; by reader_step.
Qed.

Lemma stream_reader_end_of_record f fs K :
  stream_reader (mkReader (after_field START_FIELD f) fs f)
    (Some LF :: None :: K)
  = rest <-! stream_reader parse_reset K; Ok ((fs ++ [f]) :: rest).
Proof.
  unfold after_field.
  destruct (join_quoted f); [by do 2 reader_step|].
  destruct f as [|c f]; by do 2 reader_step.
Qed.

Lemma written_fields_cons f g others :
  written_fields f (g :: others)
  = written_field f ++ COMMA :: written_fields g others.
Proof. done. Qed.

Lemma inner_symbols_written_fields f g others K :
  inner_symbols (written_fields f (g :: others)) ++ K
  = inner_symbols (written_field f)
      ++ Some COMMA :: inner_symbols (written_fields g others) ++ K.
Proof.
  rewrite written_fields_cons, inner_symbols_app, inner_symbols_cons.
  change (COMMA =? LF) with false. by rewrite <- !app_assoc.
Qed.

(** The fields after the first of a written record, up to its end. *)
Lemma stream_reader_fields f others fs K :
  Forall loadable (f :: others) →
  stream_reader (mkReader START_FIELD fs [])
    (inner_symbols (written_fields f others) ++ Some LF :: None :: K)
  = rest <-! stream_reader parse_reset K; Ok ((fs ++ f :: others) :: rest).
Proof.
  revert f fs; induction others as [|g others IH]; intros f fs Hclean;
    inversion Hclean as [|? ? [_ Hf] Hothers]; subst.
  - unfold written_fields. simpl.
    rewrite app_nil_r, stream_reader_field by auto.
    apply stream_reader_end_of_record.
  - rewrite inner_symbols_written_fields.
    rewrite stream_reader_field, stream_reader_comma by auto.
    rewrite (IH g (fs ++ [f])) by done.
    by rewrite <- app_assoc.
Qed.

(** A written record of at least two fields is read back as it was. *)
Lemma stream_reader_record f g others K :
  Forall loadable (f :: g :: others) →
  stream_reader parse_reset
    (inner_symbols (written_fields f (g :: others)) ++ Some LF :: None :: K)
  = rest <-! stream_reader parse_reset K; Ok ((f :: g :: others) :: rest).
Proof.
  intros Hclean. inversion Hclean as [|? ? [_ Hf] Hothers]; subst.
  rewrite inner_symbols_written_fields. unfold parse_reset at 1.
  rewrite stream_reader_field, stream_reader_comma by auto.
  by rewrite (stream_reader_fields g others [f]).
Qed.

(** What [csv_writerow] writes for a record of at least two fields. *)
Lemma foldl_join_append rec n fields :
  foldl (λ w field, join_append w field false) (rec, S n) fields
  = (rec ++ concat ((λ f, COMMA :: written_field f) <$> fields),
     (S n + List.length fields)%nat).
Proof.
  revert rec n; induction fields as [|f fields IH]; intros rec n; simpl.
  - by rewrite app_nil_r, Nat.add_0_r.
  - rewrite IH. unfold written_field. f_equal; [|lia].
    destruct (join_quoted f); cbn [orb app];
      by rewrite <- ?app_assoc, <- ?app_comm_cons, <- ?app_assoc.
Qed.

Lemma foldl_join_first f fields :
  foldl (λ w field, join_append w field false) ([], 0%nat) (f :: fields)
  = (written_fields f fields, S (List.length fields)).
Proof.
  cbn [foldl].
  assert (join_append ([], 0%nat) f false = (written_field f, 1%nat)) as ->.
  { unfold join_append, written_field. by destruct (join_quoted f). }
  by rewrite foldl_join_append.
Qed.

Lemma truthy_middle (a b : list N) c : truthy (a ++ c :: b) = true.
Proof. by destruct a. Qed.

Lemma csv_writerow_fields f g others :
  csv_writerow (f :: g :: others)
  = written_fields f (g :: others) ++ [CR; LF].
Proof.
  unfold csv_writerow. rewrite foldl_join_first, written_fields_cons.
  by rewrite truthy_middle.
Qed.

Lemma elem_of_join_data x f : x ∈ join_data f → x ∈ f.
Proof.
  induction f as [|c f IH]; [done|].
  rewrite join_data_cons, elem_of_app, elem_of_cons.
  intros [Hx|Hx]; [|by right; apply IH].
  left. destruct (c =? DQUOTE) eqn:Hc.
  - apply N.eqb_eq in Hc as ->.
    by repeat (apply elem_of_cons in Hx as [?|Hx]; [done|]);
       apply elem_of_nil in Hx.
  - by apply list_elem_of_singleton in Hx.
Qed.

Lemma written_field_no_CR f : CR ∉ f → CR ∉ written_field f.
Proof.
  intros Hf. unfold written_field. destruct (join_quoted f).
  - rewrite !elem_of_app, !list_elem_of_singleton.
    intros [?|[?%elem_of_join_data|?]]; done.
  - by intros ?%elem_of_join_data.
Qed.

Lemma written_fields_no_CR f others :
  Forall loadable (f :: others) → CR ∉ written_fields f others.
Proof.
  revert f; induction others as [|g others IH]; intros f Hclean;
    inversion Hclean as [|? ? [Hf _] Hothers]; subst.
  - unfold written_fields; simpl. rewrite app_nil_r.
    by apply written_field_no_CR.
  - rewrite written_fields_cons, elem_of_app, elem_of_cons.
    intros [?%written_field_no_CR|[?|?%IH]]; done.
Qed.

Lemma read_translate_app a rest :
  CR ∉ a → read_translate (a ++ rest) = a ++ read_translate rest.
Proof.
  induction a as [|c a IH]; [done|].
  rewrite not_elem_of_cons. intros [Hc Ha]. cbn [app read_translate].
  rewrite (proj2 (N.eqb_neq c CR)) by done. by rewrite IH.
Qed.

Lemma read_translate_written body rest :
  CR ∉ body →
  read_translate (body ++ [CR; LF] ++ rest)
  = body ++ LF :: read_translate rest.
Proof. intros Hb. by rewrite read_translate_app. Qed.

(** Whatever [csv_writerow] wrote, record after record of at least two
    loadable fields each, [csv.reader] reads back as the same records. *)
Lemma csv_records_written rows :
  Forall (λ row, (2 ≤ List.length row)%nat ∧ Forall loadable row) rows →
  csv_records (concat (csv_writerow <$> rows)) = Ok rows.
Proof.
  unfold csv_records. rewrite csv_reader_stream.
  induction 1 as [|row rows [Hlen Hrow] _ IH]; [done|].
  destruct row as [|f [|g others]]; simpl in Hlen; [lia|lia|].
  rewrite fmap_cons, concat_cons, csv_writerow_fields, <- app_assoc.
  rewrite read_translate_written by by apply written_fields_no_CR.
  rewrite symbols_readlines, stream_reader_record by done.
  by rewrite IH.
Qed.

(** ** What the reader hands out is loadable *)

Lemma loadable_nil : loadable [].
Proof. split; [by intros ?%elem_of_nil|done]. Qed.

Lemma parse_add_char_loadable self c self' :
  reader_loadable self → c ≠ CR →
  parse_add_char self c = Ok self' →
  reader_loadable self' ∧ state self' = state self.
Proof.
  intros [Hfs [Hcr Hlen]] Hc. unfold parse_add_char, field_len.
  destruct (field_limit <=? _) eqn:Hlim; [done|]. intros [= <-].
  apply N.leb_gt in Hlim. repeat split; simpl; [done| |].
  - rewrite elem_of_app, list_elem_of_singleton. by intros [?|?].
  - rewrite length_app; simpl. lia.
Qed.

Lemma parse_save_field_loadable self :
  reader_loadable self → reader_loadable (parse_save_field self).
Proof.
  intros [Hfs Hf]. split; simpl; [|apply loadable_nil].
  apply Forall_app. split; [done|by constructor].
Qed.

Lemma set_state_loadable st self :
  reader_loadable self → reader_loadable (set_state st self).
Proof. done. Qed.

Lemma add_then_state_loadable self c st self' :
  reader_loadable self → c ≠ CR →
  (self <-! parse_add_char self c; Ok (set_state st self)) = Ok self' →
  reader_loadable self'.
Proof.
  intros Hself Hc. destruct (parse_add_char self c) as [self1|e] eqn:Hadd;
    [|done]. intros [= <-].
  by apply set_state_loadable, (parse_add_char_loadable self c).
Qed.

Lemma parse_start_field_loadable self c self' :
  reader_loadable self → (∀ ch, c = Some ch → ch ≠ CR) →
  parse_start_field self c = Ok self' → reader_loadable self'.
Proof.
  intros Hself Hc. unfold parse_start_field.
  destruct c as [c|].
  - specialize (Hc c eq_refl). repeat case_match; try (intros [= <-]);
      auto using parse_save_field_loadable, set_state_loadable.
    by apply add_then_state_loadable.
  - intros [= <-]. by apply set_state_loadable, parse_save_field_loadable.
Qed.

Lemma parse_process_char_loadable self c self' :
  reader_loadable self → (∀ ch, c = Some ch → ch ≠ CR) →
  parse_process_char self c = Ok self' → reader_loadable self'.
Proof.
  intros Hself Hc. unfold parse_process_char.
  destruct (state self), c as [c|];
    try specialize (Hc c eq_refl); repeat case_match;
    try (intros [= <-]);
    eauto using parse_save_field_loadable, set_state_loadable,
      parse_start_field_loadable, add_then_state_loadable;
    try done.
  all: intros Hadd.
  1, 2: by eapply parse_start_field_loadable in Hadd;
          [|done|intros ? [= <-]].
  all: by apply (parse_add_char_loadable self c) in Hadd as [? _].
Qed.

Lemma parse_chars_loadable self line self' :
  reader_loadable self → CR ∉ line →
  parse_chars self line = Ok self' → reader_loadable self'.
Proof.
  revert self; induction line as [|c line IH]; intros self Hself Hline; simpl.
  - by intros [= <-].
  - apply not_elem_of_cons in Hline as [Hc Hline].
    destruct (parse_process_char self (Some c)) as [self1|e] eqn:Hstep;
      [|done]. simpl. apply IH; [|done].
    eapply parse_process_char_loadable; [done| |done]. by intros ? [= <-].
Qed.

Lemma parse_line_loadable self line self' :
  reader_loadable self → CR ∉ line →
  parse_line self line = Ok self' → reader_loadable self'.
Proof.
  intros Hself Hline. unfold parse_line.
  destruct (parse_chars self line) as [self1|e] eqn:Hchars; [|done]. simpl.
  apply parse_process_char_loadable; [|done].
  by eapply parse_chars_loadable.
Qed.

Lemma csv_reader_loadable lines self records :
  reader_loadable self → Forall (λ l, CR ∉ l) lines →
  csv_reader self lines = Ok records →
  Forall (Forall loadable) records.
Proof.
  intros Hself Hlines; revert self Hself records.
  induction Hlines as [|line lines Hline _ IH]; intros self Hself records;
    simpl.
  - destruct (_ || _); intros [= <-]; repeat constructor.
    by apply parse_save_field_loadable.
  - destruct (parse_line self line) as [self1|e] eqn:Hl; [|done]. simpl.
    apply parse_line_loadable in Hl; [|done..].
    case_bool_decide.
    + destruct (csv_reader parse_reset lines) as [rest|e] eqn:Hrest; [|done].
      simpl. intros [= <-]. constructor; [apply Hl|].
      apply (IH parse_reset); [|done].
      split; [constructor|apply loadable_nil].
    + by apply IH.
Qed.

Lemma read_translate_cons c s :
  read_translate (c :: s) =
    if c =? CR then
      match s with
      | d :: s' => if d =? LF then LF :: read_translate s'
                   else LF :: read_translate s
      | [] => [LF]
      end
    else c :: read_translate s.
Proof. done. Qed.

Lemma read_translate_no_CR f : CR ∉ read_translate f.
Proof.
  assert (∀ n f, (List.length f ≤ n)%nat → CR ∉ read_translate f) as H;
    [|by apply (H (List.length f))].
  clear f. induction n as [|n IH]; intros [|c f] Hn;
    try (by intros ?%elem_of_nil); [simpl in Hn; lia|].
  rewrite read_translate_cons. cbn [List.length] in Hn.
  destruct (c =? CR) eqn:Hc.
  - destruct f as [|d f].
    + rewrite list_elem_of_singleton. done.
    + cbn [List.length] in Hn.
      destruct (d =? LF); rewrite not_elem_of_cons; (split; [done|]);
        apply IH; cbn [List.length]; lia.
  - apply N.eqb_neq in Hc. rewrite not_elem_of_cons. split; [done|].
    apply IH. lia.
Qed.

Lemma readlines_no_CR t : CR ∉ t → Forall (λ l, CR ∉ l) (readlines t).
Proof.
  induction t as [|c t IH]; [constructor|].
  rewrite not_elem_of_cons, readlines_cons. intros [Hc Ht].
  specialize (IH Ht). destruct (c =? LF) eqn:Hlf.
  - constructor; [|done]. rewrite list_elem_of_singleton. done.
  - destruct (readlines t) as [|l ls].
    + repeat constructor. rewrite list_elem_of_singleton. done.
    + inversion IH; subst. constructor; [|done].
      rewrite not_elem_of_cons. done.
Qed.

Lemma csv_records_loadable f records :
  csv_records f = Ok records → Forall (Forall loadable) records.
Proof.
  apply csv_reader_loadable.
  - split; [constructor|apply loadable_nil].
  - apply readlines_no_CR, read_translate_no_CR.
Qed.

(** ** The table holds loaded texts, six to a row *)

Lemma loaded_table_setRowCount n t :
  loaded_table t → loaded_table (setRowCount n t).
Proof.
  intros Ht. unfold loaded_table, setRowCount. apply Forall_app. split.
  - by apply Forall_take.
  - apply Forall_replicate. split; [apply length_replicate|].
    by apply Forall_replicate.
Qed.

Lemma fill_cells_loaded cells r :
  Forall loadable cells →
  List.length r = columnCount ∧ Forall loadable_cell r →
  List.length (fill_cells cells r) = columnCount
  ∧ Forall loadable_cell (fill_cells cells r).
Proof.
  intros Hcells [Hlen Hr]. unfold fill_cells. split.
  - rewrite length_app, length_fmap, length_take, length_drop. lia.
  - apply Forall_app. split; [|by apply Forall_drop].
    apply Forall_fmap. by apply Forall_take.
Qed.

Lemma loaded_table_fill_table rows t :
  Forall (Forall loadable) rows → loaded_table t →
  loaded_table (fill_table rows t).
Proof.
  intros Hrows Ht. apply Forall_lookup. intros i r'.
  rewrite fill_table_lookup.
  destruct (t !! i) as [r|] eqn:Hr; [|done]. simpl. intros [= <-].
  pose proof (Forall_lookup_1 _ _ _ _ Ht Hr) as Hr'.
  destruct (rows !! i) as [row|] eqn:Hrow; [|done].
  apply fill_cells_loaded; [|done].
  apply Forall_take. by apply (Forall_lookup_1 _ _ _ _ Hrows Hrow).
Qed.

Lemma Forall_tail_of {A} (P : A → Prop) l : Forall P l → Forall P (tail l).
Proof. by destruct 1. Qed.

Lemma loaded_table_load_results fs self :
  loaded_table (results_table self) →
  loaded_table (results_table (load_results fs self)).
Proof.
  intros Ht. unfold load_results. destruct (fs !! _) as [f|]; [|done].
  destruct (csv_records f) as [records|e] eqn:Hr; [|done].
  rewrite results_table_update_summary; simpl.
  apply loaded_table_fill_table.
  - by apply Forall_tail_of, (csv_records_loadable f).
  - by apply loaded_table_setRowCount.
Qed.

Lemma cell_text_loadable t row col :
  loaded_table t → loadable (cell_text row col t).
Proof.
  intros Ht. unfold cell_text. rewrite item_lookup.
  destruct (t !! row) as [r|] eqn:Hr; simpl; [|apply loadable_nil].
  destruct (r !! col) as [[s|]|] eqn:Hs; simpl; try apply loadable_nil.
  destruct (Forall_lookup_1 _ _ _ _ Ht Hr) as [_ Hcells].
  apply (Forall_lookup_1 _ _ _ _ Hcells Hs).
Qed.

Lemma cell_values_loadable t :
  loaded_table t →
  Forall (λ row, (2 ≤ List.length row)%nat ∧ Forall loadable row)
         (cell_values t).
Proof.
  intros Ht. unfold cell_values. apply Forall_fmap, Forall_forall.
  intros row _; unfold compose; cbn beta. split.
  - rewrite length_fmap, length_seq. unfold columnCount. lia.
  - apply Forall_fmap, Forall_forall. intros col _; unfold compose.
    by apply cell_text_loadable.
Qed.

Lemma cell_values_length t :
  Forall (λ row, List.length row = columnCount) (cell_values t).
Proof.
  unfold cell_values. apply Forall_fmap, Forall_forall.
  intros row _; unfold compose; cbn beta.
  by rewrite length_fmap, length_seq.
Qed.

Lemma horizontalHeaderLabels_loadable :
  (2 ≤ List.length horizontalHeaderLabels)%nat
  ∧ Forall loadable horizontalHeaderLabels.
Proof.
  split; [vm_compute; lia|].
  repeat constructor;
    first [ by apply (bool_decide_unpack _)
          | apply N.leb_le; by vm_compute ].
Qed.

(** ** save_as_csv *)

Lemma foldl_write_raw {A} (F : A → list N) f l :
  foldl (λ f x, write_raw f (F x)) f l = f ++ concat (F <$> l).
Proof.
  revert f; induction l as [|x l IH]; intros f; simpl.
  - by rewrite app_nil_r.
  - rewrite IH. unfold write_raw. by rewrite <- app_assoc.
Qed.

Lemma save_as_csv_written path self (fs : gmap string (list N)) :
  save_as_csv path self fs !! path
  = Some (concat (csv_writerow
                    <$> horizontalHeaderLabels
                        :: cell_values (results_table self))).
Proof.
  unfold save_as_csv. rewrite lookup_insert_eq. f_equal.
  rewrite foldl_write_raw. unfold write_raw, cell_values.
  rewrite fmap_cons, concat_cons, <- list_fmap_compose. done.
Qed.

(** ** Loading what was saved *)

Lemma fill_cells_whole row r :
  List.length row = columnCount → List.length r = columnCount →
  fill_cells (take 6 row) r = Some <$> row.
Proof.
  unfold columnCount, fill_cells. intros Hrow Hr.
  rewrite Hr, take_take, !take_ge, drop_ge by lia.
  apply app_nil_r.
Qed.

Lemma fill_table_whole rows t :
  Forall (λ row, List.length row = columnCount) rows →
  Forall (λ r, List.length r = columnCount) t →
  fill_table rows (setRowCount (List.length rows) t)
  = (λ row : list (list N), Some <$> row) <$> rows.
Proof.
  intros Hrows Ht. apply list_eq; intros i.
  rewrite fill_table_lookup, list_lookup_fmap.
  assert (Forall (λ r, List.length r = columnCount)
            (setRowCount (List.length rows) t)) as Ht'.
  { unfold setRowCount. apply Forall_app. split; [by apply Forall_take|].
    apply Forall_replicate, length_replicate. }
  destruct (rows !! i) as [row|] eqn:Hrow; simpl.
  - destruct (lookup_lt_is_Some_2 (setRowCount (List.length rows) t) i)
      as [r Hr].
    { rewrite length_setRowCount. by eapply lookup_lt_Some. }
    rewrite Hr; simpl. f_equal. apply fill_cells_whole.
    + apply (Forall_lookup_1 _ _ _ _ Hrows Hrow).
    + apply (Forall_lookup_1 _ _ _ _ Ht' Hr).
  - rewrite lookup_ge_None_2; [done|].
    rewrite length_setRowCount. by apply lookup_ge_None_1.
Qed.

Lemma cell_values_items rows :
  Forall (λ row, List.length row = columnCount) rows →
  cell_values ((λ row : list (list N), Some <$> row) <$> rows) = rows.
Proof.
  intros Hrows. unfold cell_values, rowCount. rewrite length_fmap.
  apply list_eq; intros i. rewrite list_lookup_fmap.
  destruct (rows !! i) as [row|] eqn:Hrow.
  - rewrite lookup_seq_lt by by eapply lookup_lt_Some.
    cbn [fmap option_fmap option_map Nat.add]. f_equal.
    pose proof (Forall_lookup_1 _ _ _ _ Hrows Hrow) as Hlen.
    cbn beta in Hlen.
    apply list_eq; intros col. rewrite list_lookup_fmap.
    destruct (row !! col) as [s|] eqn:Hs.
    + rewrite lookup_seq_lt by (rewrite <- Hlen; by eapply lookup_lt_Some).
      cbn [fmap option_fmap option_map Nat.add].
      unfold cell_text. rewrite item_lookup, list_lookup_fmap, Hrow.
      cbn [fmap option_fmap option_map mbind option_bind].
      by rewrite list_lookup_fmap, Hs.
    + rewrite lookup_seq_ge; [done|].
      rewrite <- Hlen. by apply lookup_ge_None_1.
  - rewrite lookup_seq_ge; [done|]. by apply lookup_ge_None_1.
Qed.

Lemma loaded_table_step os w w' :
  loaded_table (results_table (gui w)) → step os w w' →
  loaded_table (results_table (gui w')).
Proof.
  intros Ht Hstep.
  destruct Hstep as [w _|w popen i|w i|w|w ? ? ? ? ?|w theme|w fs'];
    try done.
  - unfold start_search. destruct (search_thread_running w); [done|].
    constructor.
  - unfold worker_run. destruct (threads w !! i) as [thr|]; [|done].
    destruct (_ && _); [|done]. by destruct (run _ _ _ _).
  - unfold worker_exit. destruct (threads w !! i) as [thr|]; [|done].
    by destruct (_ && _).
  - unfold deliver. destruct (events w) as [|[message|output|e] queue];
      [done..| |done]. cbn [gui].
    rewrite results_table_search_finished.
    by apply loaded_table_load_results.
  - cbn [gui]. by rewrite results_table_change_theme.
Qed.

(** Every table the program ever holds is a loaded table. *)
Lemma reachable_loaded_table os w :
  reachable os w → loaded_table (results_table (gui w)).
Proof.
  induction 1 as [dir fs0|w w' _ IH Hstep]; [constructor|].
  by eapply loaded_table_step.
Qed.

(** Saving a loaded table and loading the file again. *)
Lemma load_results_saved self path (fs1 fs2 : gmap string (list N)) self' :
  loaded_table (results_table self) →
  Forall (λ r, List.length r = columnCount) (results_table self') →
  fs2 !! csv_file self' = save_as_csv path self fs1 !! path →
  cell_values (results_table (load_results fs2 self'))
  = cell_values (results_table self)
  ∧ dialogs (load_results fs2 self') = dialogs self'.
Proof.
  intros Hloaded Hwf Hfile.
  rewrite save_as_csv_written in Hfile.
  assert (csv_records
            (concat (csv_writerow
                       <$> horizontalHeaderLabels
                           :: cell_values (results_table self)))
          = Ok (horizontalHeaderLabels :: cell_values (results_table self)))
    as Hread.
  { apply csv_records_written. constructor.
    - apply horizontalHeaderLabels_loadable.
    - by apply cell_values_loadable. }
  rewrite (load_results_read _ _ _ _ Hfile Hread).
  rewrite results_table_update_summary, dialogs_update_summary.
  split; [|done]. cbn [tail results_table set_results_table].
  rewrite (fill_table_whole (cell_values (results_table self))
             (results_table self') (cell_values_length _) Hwf).
  apply cell_values_items, cell_values_length.
Qed.

(** C1: take any result set that [load_results] has loaded, or any that
    the running program holds; save it with [save_as_csv] to any path, and
    let [load_results] read a [search_results.csv] with that content: no
    message box is raised and the table then holds the same six cell values
    in every row, in order, whatever commas, quotes or newlines the cells
    contain (the header line is written and skipped again). *)
Theorem save_as_csv_load_results_round_trip
    path (fs1 fs2 : gmap string (list N)) self' :
  Forall (λ r, List.length r = columnCount) (results_table self') →
  (∀ fs0 self0,
     loaded_table (results_table self0) →
     fs2 !! csv_file self'
     = save_as_csv path (load_results fs0 self0) fs1 !! path →
     cell_values (results_table (load_results fs2 self'))
     = cell_values (results_table (load_results fs0 self0))
     ∧ dialogs (load_results fs2 self') = dialogs self')
  ∧ (∀ os w,
       reachable os w →
       fs2 !! csv_file self' = save_as_csv path (gui w) fs1 !! path →
       cell_values (results_table (load_results fs2 self'))
       = cell_values (results_table (gui w))
       ∧ dialogs (load_results fs2 self') = dialogs self').
Proof.
  intros Hwf. split.
  - intros fs0 self0 Hloaded. apply load_results_saved; [|done].
    by apply loaded_table_load_results.
  - intros os w Hreach. apply load_results_saved; [|done].
    by eapply reachable_loaded_table.
Qed.

(** A result with a comma, a quoted word and a line break in its cells. *)
Lemma save_as_csv_load_results_round_trip_witness :
  let self :=
    load_results
      {[ "/opt/ws/search_results.csv" :=
           py "Type,FilePath,FileName,Line,Term,Match" ++ [LF]
           ++ py "Content match,/a/b.txt,b.txt,3,x," ++ [DQUOTE]
           ++ py "a,b " ++ [DQUOTE; DQUOTE] ++ py "c" ++ [DQUOTE; DQUOTE; LF]
           ++ py "d" ++ [DQUOTE; LF] ]}
      (init_gui "/opt/ws") in
  cell_values
    (results_table
       (load_results (save_as_csv "/opt/ws/search_results.csv" self ∅)
          (clear_results self)))
  = cell_values (results_table self).
Proof.
  intros self.
  destruct (save_as_csv_load_results_round_trip
              "/opt/ws/search_results.csv" ∅
              (save_as_csv "/opt/ws/search_results.csv" self ∅)
              (clear_results self)) as [H _].
  - constructor.
  - apply (H _ (init_gui "/opt/ws")).
    + constructor.
    + reflexivity.
Defined.

(** * More of the window *)

(** ** The Save button *)

Lemma endswith_spec s suffix :
  endswith s suffix = true ↔ ∃ pre, s = pre ++ suffix.
Proof.
  unfold endswith. rewrite startswith_spec. split.
  - intros [post H]. exists (reverse post).
    apply (inj reverse). by rewrite reverse_app, reverse_involutive.
  - intros [pre ->]. exists (reverse pre). by rewrite reverse_app.
Qed.

Lemma save_as_csv_insert path self (fs : gmap string (list N)) :
  save_as_csv path self fs
  = <[path := concat (csv_writerow
                        <$> horizontalHeaderLabels
                            :: cell_values (results_table self))]> fs.
Proof.
  unfold save_as_csv. f_equal.
  rewrite foldl_write_raw. unfold write_raw, cell_values.
  rewrite fmap_cons, concat_cons, <- list_fmap_compose. done.
Qed.

Lemma truthy_py path : truthy (py path) = negb (bool_decide (path = "")).
Proof. by destruct path. Qed.

Lemma save_results_empty os open_error path_name file_path w :
  rowCount (results_table (gui w)) = 0%nat →
  save_results os open_error path_name file_path w
  = mkWorld
      (set_dialogs
         (dialogs (gui w) ++
            [mkDialog Information (py "No Results")
               (py "No search results to save.")]) (gui w))
      (fs w) (threads w) (events w).
Proof. intros H. unfold save_results. by rewrite H. Qed.

Lemma save_results_written os open_error path_name file_path w :
  rowCount (results_table (gui w)) ≠ 0%nat →
  file_path ≠ "" →
  open_error file_path = None →
  fs (save_results os open_error path_name file_path w)
  = if endswith (lower (py file_path)) (py ".csv")
    then save_as_csv file_path (gui w) (fs w)
    else save_as_text os file_path (gui w) (fs w).
Proof.
  intros Hrows Hpath Hopen. unfold save_results.
  rewrite (proj2 (Nat.eqb_neq _ _) Hrows), truthy_py.
  rewrite bool_decide_eq_false_2 by done. simpl.
  by rewrite Hopen.
Qed.

Lemma load_results_none fs self :
  fs !! csv_file self = None → load_results fs self = self.
Proof. intros Hf. unfold load_results. by rewrite Hf. Qed.

(** [load_results] changes the table, the summary and the message boxes,
    nothing else. *)
Lemma load_results_frame fs self :
  script_dir (load_results fs self) = script_dir self
  ∧ search_thread (load_results fs self) = search_thread self
  ∧ current_theme (load_results fs self) = current_theme self
  ∧ path_edit (load_results fs self) = path_edit self
  ∧ terms_edit (load_results fs self) = terms_edit self
  ∧ regex_edit (load_results fs self) = regex_edit self
  ∧ case_sensitive_cb (load_results fs self) = case_sensitive_cb self
  ∧ verbose_cb (load_results fs self) = verbose_cb self
  ∧ search_btn_enabled (load_results fs self) = search_btn_enabled self
  ∧ save_btn_enabled (load_results fs self) = save_btn_enabled self
  ∧ progress_bar_visible (load_results fs self) = progress_bar_visible self
  ∧ status_bar (load_results fs self) = status_bar self
  ∧ log_output (load_results fs self) = log_output self
  ∧ tabs_index (load_results fs self) = tabs_index self.
Proof.
  unfold load_results. destruct (fs !! _); [|done].
  destruct (csv_records _); [|done].
  unfold update_summary. by destruct (count_matches _).
Qed.

Lemma save_btn_enabled_search_finished fs output self :
  save_btn_enabled (search_finished fs output self) = true.
Proof.
  unfold search_finished; cbn.
  by rewrite (proj1 (proj2 (proj2 (proj2 (proj2 (proj2 (proj2 (proj2
                (proj2 (proj2 (load_results_frame _ _))))))))))).
Qed.

Lemma fs_deliver w : fs (deliver w) = fs w.
Proof. unfold deliver. by destruct (events w). Qed.

(** X1: with no rows in the table, a click on Save writes no file and
    raises exactly one information box, "No Results", whatever path the
    file dialog would have returned; the window is otherwise as before.
    This is the case after a finished search that left no results file,
    although the save button is then enabled. *)
Theorem save_results_no_results os open_error path_name file_path :
  (∀ w,
     rowCount (results_table (gui w)) = 0%nat →
     fs (save_results os open_error path_name file_path w) = fs w
     ∧ dialogs (gui (save_results os open_error path_name file_path w))
       = dialogs (gui w) ++
           [mkDialog Information (py "No Results")
              (py "No search results to save.")]
     ∧ results_table (gui (save_results os open_error path_name file_path w))
       = results_table (gui w)
     ∧ status_bar (gui (save_results os open_error path_name file_path w))
       = status_bar (gui w))
  ∧ (∀ os' w output queue,
       reachable os' w →
       events w = finished output :: queue →
       fs w !! csv_file (gui w) = None →
       save_btn_enabled (gui (deliver w)) = true
       ∧ fs (save_results os open_error path_name file_path (deliver w))
         = fs w
       ∧ dialogs
           (gui (save_results os open_error path_name file_path (deliver w)))
         = dialogs (gui w) ++
             [mkDialog Information (py "No Results")
                (py "No search results to save.")]).
Proof.
  split.
  - intros w Hrows. by rewrite save_results_empty.
  - intros os' w output queue Hreach He Hf.
    assert (results_table (gui (deliver w)) = []) as Ht.
    { rewrite (deliver_finished _ _ _ He), results_table_search_finished.
      rewrite (load_results_none _ _ Hf).
      by eapply reachable_finished_cleared. }
    assert (dialogs (gui (deliver w)) = dialogs (gui w)) as Hd.
    { rewrite (deliver_finished _ _ _ He), dialogs_search_finished.
      by rewrite (load_results_none _ _ Hf). }
    split.
    { rewrite (deliver_finished _ _ _ He).
      apply save_btn_enabled_search_finished. }
    rewrite save_results_empty by by rewrite Ht.
    cbn [fs gui dialogs set_dialogs]. by rewrite fs_deliver, Hd.
Qed.

Lemma save_results_no_results_witness :
  dialogs (gui (save_results posix (λ _, None) py "/tmp/out.txt"
                  (init_world "/opt/ws" ∅)))
  = [mkDialog Information (py "No Results")
       (py "No search results to save.")].
Proof.
  destruct (save_results_no_results posix (λ _, None) py "/tmp/out.txt")
    as [H _].
  destruct (H (init_world "/opt/ws" ∅)) as (_ & Hd & _); [reflexivity|].
  exact Hd.
Defined.

(** X2: a click on Save with a path that ends in ".csv" in any letter case
    writes the CSV export there; loading a results file with that content,
    in a window whose theme is one of those on offer, gives back the six
    cell values of every row, without a message box. *)
Theorem save_results_csv_round_trip
    os open_error path_name file_path w
    (fs2 : gmap string (list N)) self' :
  loaded_table (results_table (gui w)) →
  rowCount (results_table (gui w)) ≠ 0%nat →
  file_path ≠ "" →
  open_error file_path = None →
  endswith (lower (py file_path)) (py ".csv") = true →
  current_theme self' ∈ theme_names →
  Forall (λ r, List.length r = columnCount) (results_table self') →
  fs2 !! csv_file self'
  = fs (save_results os open_error path_name file_path w) !! file_path →
  cell_values (results_table (load_results fs2 self'))
  = cell_values (results_table (gui w))
  ∧ dialogs (load_results fs2 self') = dialogs self'.
Proof.
  intros Hloaded Hrows Hpath Hopen Hcsv _ Hwf Hfile.
  rewrite save_results_written, Hcsv in Hfile by done.
  by apply (load_results_saved (gui w) file_path (fs w)).
Qed.

Lemma save_results_csv_round_trip_witness :
  let w :=
    mkWorld
      (set_results_table
         [[Some (py "Content match"); Some (py "a,b"); None; None; None;
           Some (py "x" ++ [LF] ++ py "y")]]
         (init_gui "/opt/ws")) ∅ [] [] in
  cell_values
    (results_table
       (load_results
          {[ "/opt/ws/search_results.csv" :=
               default []
                 (fs (save_results posix (λ _, None) py "/tmp/OUT.Csv" w)
                    !! "/tmp/OUT.Csv") ]}
          (init_gui "/opt/ws")))
  = cell_values (results_table (gui w)).
Proof.
  intros w.
  apply (save_results_csv_round_trip posix (λ _, None) py "/tmp/OUT.Csv" w).
  - repeat constructor; try apply N.leb_le; try by vm_compute.
    all: by apply (bool_decide_unpack _).
  - vm_compute. lia.
  - done.
  - reflexivity.
  - vm_compute. reflexivity.
  - by apply (bool_decide_unpack _).
  - constructor.
  - vm_compute. reflexivity.
Defined.

Lemma save_as_text_other os path self (fs : gmap string (list N)) p :
  p ≠ path → save_as_text os path self fs !! p = fs !! p.
Proof. intros Hp. unfold save_as_text. by rewrite lookup_insert_ne. Qed.

Lemma save_as_csv_other path self (fs : gmap string (list N)) p :
  p ≠ path → save_as_csv path self fs !! p = fs !! p.
Proof. intros Hp. unfold save_as_csv. by rewrite lookup_insert_ne. Qed.

(** X3: a click on Save never changes the result table, the workers or the
    queued signals, and no file other than the chosen one; a cancelled file
    dialog leaves everything as it was; and when the chosen file cannot be
    opened nothing is written and one critical box, "Save Error", carries
    the exception's message. *)
Theorem save_results_frame os open_error path_name file_path w :
  results_table (gui (save_results os open_error path_name file_path w))
  = results_table (gui w)
  ∧ threads (save_results os open_error path_name file_path w) = threads w
  ∧ events (save_results os open_error path_name file_path w) = events w
  ∧ (∀ p, p ≠ file_path →
       fs (save_results os open_error path_name file_path w) !! p
       = fs w !! p)
  ∧ (rowCount (results_table (gui w)) ≠ 0%nat → file_path = "" →
     save_results os open_error path_name file_path w = w)
  ∧ (∀ e,
       rowCount (results_table (gui w)) ≠ 0%nat → file_path ≠ "" →
       open_error file_path = Some e →
       fs (save_results os open_error path_name file_path w) = fs w
       ∧ dialogs (gui (save_results os open_error path_name file_path w))
         = dialogs (gui w) ++
             [mkDialog Critical (py "Save Error")
                (py "Failed to save results:" ++ [LF] ++ e)]).
Proof.
  unfold save_results.
  destruct (rowCount (results_table (gui w)) =? 0)%nat eqn:Hrows.
  { apply Nat.eqb_eq in Hrows.
    split; [done|]. split; [done|]. split; [done|]. split; [done|].
    split; [intros; lia|intros; lia]. }
  rewrite truthy_py. case_bool_decide as Hpath; simpl.
  { split; [done|]. split; [done|]. split; [done|]. split; [done|].
    split; [done|]. intros e _ Hne. by destruct Hne. }
  destruct (open_error file_path) as [e|] eqn:Hopen.
  { split; [done|]. split; [done|]. split; [done|]. split; [done|].
    split; [intros _ Heq; by destruct Hpath|].
    by intros e' _ _ [= <-]. }
  split; [done|]. split; [done|]. split; [done|].
  split; [|split; [intros _ Heq; by destruct Hpath|done]].
  intros p Hp. cbn [fs].
  destruct (endswith _ _);
    [by apply save_as_csv_other|by apply save_as_text_other].
Qed.

Lemma save_results_frame_witness :
  let w :=
    mkWorld (set_results_table [[Some (py "x")]] (init_gui "/opt/ws"))
      {[ "/tmp/out.csv" := py "old" ]} [] [] in
  fs (save_results posix (λ _, Some (py "Permission denied")) py
        "/tmp/out.csv" w)
  = fs w
  ∧ dialogs (gui (save_results posix (λ _, Some (py "Permission denied")) py
                    "/tmp/out.csv" w))
    = dialogs (gui w) ++
        [mkDialog Critical (py "Save Error")
           (py "Failed to save results:" ++ [LF] ++ py "Permission denied")].
Proof.
  intros w.
  destruct (save_results_frame posix (λ _, Some (py "Permission denied")) py
              "/tmp/out.csv" w) as (_ & _ & _ & _ & _ & H).
  apply H.
  - vm_compute. lia.
  - done.
  - reflexivity.
Defined.

(** ** What the exports read of the table *)

Lemma foldl_ext_in {A B} (f g : A → B → A) (l : list B) a :
  (∀ a x, x ∈ l → f a x = g a x) → foldl f a l = foldl g a l.
Proof.
  revert a; induction l as [|x l IH]; intros a H; simpl; [done|].
  rewrite H by left. apply IH. intros a' y Hy. apply H. by right.
Qed.

Lemma length_cell_values t : List.length (cell_values t) = rowCount t.
Proof. unfold cell_values. by rewrite length_fmap, length_seq. Qed.

Lemma cell_values_cell_text t1 t2 row col :
  cell_values t1 = cell_values t2 →
  (row < rowCount t1)%nat → (col < columnCount)%nat →
  cell_text row col t1 = cell_text row col t2.
Proof.
  intros Heq Hrow Hcol.
  assert (rowCount t2 = rowCount t1) as Hn
    by by rewrite <- !length_cell_values, Heq.
  assert (cell_values t1 !! row ≫= (λ r, r !! col)
          = cell_values t2 !! row ≫= (λ r, r !! col)) as H by by rewrite Heq.
  unfold cell_values in H.
  rewrite !list_lookup_fmap, Hn, lookup_seq_lt in H by done.
  cbn [fmap option_fmap option_map mbind option_bind Nat.add] in H.
  rewrite !list_lookup_fmap, lookup_seq_lt in H by done.
  by simplify_eq/=.
Qed.

(** X4: both exports read the table only through the six cell values of
    each row: two windows whose tables agree on them (a cell without item
    counting as an empty text), and whose search path and case flag agree,
    write the same CSV file and the same text file. *)
Theorem exports_depend_on_cell_values
    os file_path self1 self2 (fs : gmap string (list N)) :
  cell_values (results_table self1) = cell_values (results_table self2) →
  path_edit self1 = path_edit self2 →
  case_sensitive_cb self1 = case_sensitive_cb self2 →
  save_as_csv file_path self1 fs = save_as_csv file_path self2 fs
  ∧ save_as_text os file_path self1 fs = save_as_text os file_path self2 fs.
Proof.
  intros Hcells Hpath Hcase. split.
  - by rewrite !save_as_csv_insert, Hcells.
  - assert (rowCount (results_table self2) = rowCount (results_table self1))
      as Hn by by rewrite <- !length_cell_values, Hcells.
    unfold save_as_text. rewrite Hpath, Hcase, Hn. f_equal.
    apply foldl_ext_in. intros f row Hrow.
    apply elem_of_seq in Hrow as [_ Hrow]. f_equal.
    apply foldl_ext_in. intros f' col Hcol.
    apply elem_of_seq in Hcol as [_ Hcol].
    by rewrite (cell_values_cell_text _ _ row col Hcells).
Qed.

(** A cell without item against a cell with an empty text. *)
Lemma exports_depend_on_cell_values_witness :
  save_as_text nt "/tmp/out.txt"
    (set_results_table [[Some (py "x"); None; None; None; None; None]]
       (init_gui "/opt/ws")) ∅
  = save_as_text nt "/tmp/out.txt"
      (set_results_table
         [[Some (py "x"); Some []; Some []; None; Some []; None; None]]
         (init_gui "/opt/ws")) ∅.
Proof.
  apply (exports_depend_on_cell_values nt "/tmp/out.txt"); reflexivity.
Defined.

(** X5: the text export loses where one cell ends and the next begins:
    there are two tables that [load_results] can produce, differing in
    their cell values, whose text exports are the same file on every
    platform, while their CSV exports differ. *)
Theorem save_as_text_is_lossy :
  ∃ self1 self2,
    loaded_table (results_table self1)
    ∧ loaded_table (results_table self2)
    ∧ cell_values (results_table self1) ≠ cell_values (results_table self2)
    ∧ (∀ os file_path (fs : gmap string (list N)),
         save_as_text os file_path self1 fs
         = save_as_text os file_path self2 fs)
    ∧ (∀ file_path (fs : gmap string (list N)),
         save_as_csv file_path self1 fs !! file_path
         ≠ save_as_csv file_path self2 fs !! file_path).
Proof.
  exists
    (set_results_table
       [[Some (py "a" ++ [LF] ++ py "  File Path: b"); Some (py "c");
         None; None; None; None]] (init_gui "/opt/ws")),
    (set_results_table
       [[Some (py "a"); Some (py "b" ++ [LF] ++ py "  File Path: c");
         None; None; None; None]] (init_gui "/opt/ws")).
  split; [|split; [|split; [|split]]].
  - repeat constructor; try apply N.leb_le; try by vm_compute.
    all: by apply (bool_decide_unpack _).
  - repeat constructor; try apply N.leb_le; try by vm_compute.
    all: by apply (bool_decide_unpack _).
  - by vm_compute.
  - intros os file_path fs. unfold save_as_text. f_equal.
    destruct os; by vm_compute.
  - intros file_path fs. rewrite !save_as_csv_written. by vm_compute.
Qed.

(** ** What the window shows while a search is under way *)

Lemma progress_bar_visible_load_results fs self :
  progress_bar_visible (load_results fs self) = progress_bar_visible self.
Proof.
  unfold load_results. destruct (fs !! _); [|done].
  destruct (csv_records _); [|done].
  unfold update_summary. by destruct (count_matches _).
Qed.

Lemma script_dir_load_results fs self :
  script_dir (load_results fs self) = script_dir self.
Proof.
  unfold load_results. destruct (fs !! _); [|done].
  destruct (csv_records _); [|done].
  unfold update_summary. by destruct (count_matches _).
Qed.

Lemma script_dir_change_theme theme_name self :
  script_dir (change_theme theme_name self) = script_dir self.
Proof.
  unfold change_theme. destruct (0 <? _)%nat; [|done].
  unfold update_summary. by destruct (count_matches _).
Qed.

Lemma change_theme_frame theme_name self :
  search_btn_enabled (change_theme theme_name self) = search_btn_enabled self
  ∧ save_btn_enabled (change_theme theme_name self) = save_btn_enabled self
  ∧ progress_bar_visible (change_theme theme_name self)
    = progress_bar_visible self
  ∧ dialogs (change_theme theme_name self) = dialogs self
  ∧ log_output (change_theme theme_name self) = log_output self
  ∧ status_bar (change_theme theme_name self) = status_bar self.
Proof.
  unfold change_theme. destruct (0 <? _)%nat; [|done].
  unfold update_summary. by destruct (count_matches _).
Qed.

Lemma change_theme_no_rows theme_name self :
  results_table self = [] →
  change_theme theme_name self = set_current_theme theme_name self.
Proof. intros Ht. unfold change_theme. simpl. by rewrite Ht. Qed.

Lemma searching_ui_step os w w' :
  searching_ui w → step os w w' → searching_ui w'.
Proof.
  intros Hinv Hstep.
  destruct Hstep as [w Hen|w popen i|w i|w|w ? ? ? ? ?|w theme|w fs'];
    try done.
  - unfold start_search. destruct (search_thread_running w); [done|].
    by unfold searching_ui.
  - unfold worker_run. destruct (threads w !! i) as [thr|]; [|done].
    destruct (_ && _); [|done]. by destruct (run _ _ _ _).
  - unfold worker_exit. destruct (threads w !! i) as [thr|]; [|done].
    by destruct (_ && _).
  - unfold deliver. destruct (events w) as [|[message|output|e] queue];
      [done..| |done].
    unfold searching_ui, search_finished. cbn [gui].
    cbn [search_btn_enabled progress_bar_visible set_tabs_index
           set_status_bar].
    by rewrite search_btn_enabled_load_results,
      progress_bar_visible_load_results.
  - unfold searching_ui in *. cbn [gui].
    destruct (change_theme_frame theme (gui w)) as (-> & -> & -> & _).
    rewrite results_table_change_theme.
    destruct (search_btn_enabled (gui w)); [done|].
    destruct Hinv as (? & Ht & ? & ?).
    by rewrite (change_theme_no_rows _ _ Ht).
Qed.

(** X6: at every moment of a run of the program the search button and the
    rest of the window agree: while the button is enabled the progress bar
    is hidden, and while it is disabled the bar shows, the result table has
    no rows, the summary is blank and the save button is disabled; choosing
    a theme in between does not render a summary. *)
Theorem reachable_searching_ui os w : reachable os w → searching_ui w.
Proof.
  induction 1 as [dir fs0|w w' _ IH Hstep]; [done|].
  by eapply searching_ui_step.
Qed.

Lemma reachable_searching_ui_witness :
  searching_ui
    (mkWorld
       (change_theme "Vampire"
          (gui (start_search posix (init_world "/opt/ws" ∅))))
       (fs (start_search posix (init_world "/opt/ws" ∅)))
       (threads (start_search posix (init_world "/opt/ws" ∅)))
       (events (start_search posix (init_world "/opt/ws" ∅)))).
Proof.
  apply (reachable_searching_ui posix).
  eapply reachable_step; [|apply (step_change_theme posix _ "Vampire")].
  eapply reachable_step; [apply (reachable_init posix "/opt/ws" ∅)|].
  apply step_start_search. reflexivity.
Defined.

(** X7: a search that fails shows nothing to save.  When an [error] signal
    reaches the window in a run of the program, the table still has no
    rows, the summary stays blank and the save button stays disabled; the
    search button is enabled again, the progress bar hidden, the log gains
    the line [ERROR: ...], one critical box, "Search Error", is raised, and
    no file is touched. *)
Theorem failed_search_shows_nothing os w e queue :
  reachable os w → events w = error e :: queue →
  results_table (gui (deliver w)) = []
  ∧ summary_text (gui (deliver w)) = None
  ∧ save_btn_enabled (gui (deliver w)) = false
  ∧ search_btn_enabled (gui (deliver w)) = true
  ∧ progress_bar_visible (gui (deliver w)) = false
  ∧ status_bar (gui (deliver w)) = py "Search failed"
  ∧ log_output (gui (deliver w))
    = log_output (gui w) ++ [LF :: py "ERROR: " ++ e]
  ∧ dialogs (gui (deliver w))
    = dialogs (gui w) ++
        [mkDialog Critical (py "Search Error")
           (py "Search failed:" ++ [LF] ++ e)]
  ∧ fs (deliver w) = fs w
  ∧ pending_outcomes (deliver w) = 0%nat.
Proof.
  intros Hreach He.
  pose proof (reachable_searching_ui os w Hreach) as Hui.
  pose proof (reachable_one_search_at_a_time os w Hreach) as Hone.
  unfold searching_ui in Hui.
  unfold one_search_at_a_time, pending_outcomes in Hone.
  rewrite He in Hone. rewrite filter_cons, decide_True in Hone by done.
  simpl in Hone.
  destruct (search_btn_enabled (gui w)); [lia|].
  destruct Hui as (_ & Ht & Hs & Hsave). destruct Hone as [Hone _].
  unfold deliver, pending_outcomes. rewrite He. cbn.
  repeat split; try done. lia.
Qed.

Lemma failed_search_shows_nothing_witness :
  let w :=
    deliver
      (worker_run posix (λ _ _, Raise (py "No such file")) 0
         (start_search posix (init_world "/opt/ws" ∅))) in
  results_table (gui (deliver w)) = []
  ∧ save_btn_enabled (gui (deliver w)) = false
  ∧ dialogs (gui (deliver w))
    = [mkDialog Critical (py "Search Error")
         (py "Search failed:" ++ [LF]
          ++ py "Failed to run search: No such file")].
Proof.
  intros w.
  destruct (failed_search_shows_nothing posix w
              (py "Failed to run search: No such file") [])
    as (Ht & _ & Hsave & _ & _ & _ & _ & Hd & _).
  - eapply reachable_step; [|apply step_deliver].
    eapply reachable_step;
      [|apply (step_worker_run posix _ (λ _ _, Raise (py "No such file")) 0)].
    eapply reachable_step; [apply (reachable_init posix "/opt/ws" ∅)|].
    apply step_start_search. reflexivity.
  - reflexivity.
  - split; [exact Ht|]. split; [exact Hsave|]. exact Hd.
Defined.

(** ** The files a search touches, and where the child runs *)

(** X8: starting a search writes to no file other than [.terms_list] and
    [.regex_list] of the installation directory; in particular the results
    file of an earlier search is neither removed nor emptied. *)
Theorem start_search_touches_list_files os w :
  (∀ p, p ≠ joinpath (script_dir (gui w)) ".terms_list" →
        p ≠ joinpath (script_dir (gui w)) ".regex_list" →
        fs (start_search os w) !! p = fs w !! p)
  ∧ fs (start_search os w) !! csv_file (gui w) = fs w !! csv_file (gui w)
  ∧ csv_file (gui (start_search os w)) = csv_file (gui w).
Proof.
  assert (∀ p, p ≠ joinpath (script_dir (gui w)) ".terms_list" →
               p ≠ joinpath (script_dir (gui w)) ".regex_list" →
               fs (start_search os w) !! p = fs w !! p) as Hother.
  { intros p Hterms Hregex.
    destruct (fs_start_search os w) as [->| ->]; [done|].
    unfold prepare_search_files.
    by rewrite !write_list_file_other. }
  split; [done|]. split.
  - apply Hother; unfold csv_file; intros Heq;
      by apply joinpath_inj in Heq.
  - unfold start_search. by destruct (search_thread_running w).
Qed.

Lemma start_search_touches_list_files_witness :
  let w :=
    mkWorld (set_terms_edit (py "needle") (init_gui "/opt/ws"))
      {[ "/opt/ws/notes.txt" := py "keep" ]} [] [] in
  fs (start_search posix w) !! "/opt/ws/notes.txt" = Some (py "keep").
Proof.
  intros w.
  destruct (start_search_touches_list_files posix w) as [H _].
  etrans; [apply (H "/opt/ws/notes.txt")|].
  - vm_compute. discriminate.
  - vm_compute. discriminate.
  - reflexivity.
Defined.

Lemma script_dir_step os w w' :
  step os w w' → script_dir (gui w') = script_dir (gui w).
Proof.
  intros Hstep.
  destruct Hstep as [w Hen|w popen i|w i|w|w ? ? ? ? ?|w theme|w fs'];
    try done.
  - unfold start_search. by destruct (search_thread_running w).
  - unfold worker_run. destruct (threads w !! i) as [thr|]; [|done].
    destruct (_ && _); [|done]. by destruct (run _ _ _ _).
  - unfold worker_exit. destruct (threads w !! i) as [thr|]; [|done].
    by destruct (_ && _).
  - unfold deliver. destruct (events w) as [|[message|output|e] queue];
      [done..| |done].
    unfold search_finished. cbn. by rewrite script_dir_load_results.
  - cbn. by rewrite script_dir_change_theme.
Qed.

Lemma threads_in_script_dir_step os w w' :
  threads_in_script_dir w → step os w w' → threads_in_script_dir w'.
Proof.
  intros Hinv Hstep. unfold threads_in_script_dir.
  rewrite (script_dir_step os w w' Hstep).
  destruct Hstep as [w Hen|w popen i|w i|w|w ? ? ? ? ?|w theme|w fs'];
    try done.
  - unfold start_search. destruct (search_thread_running w); [done|].
    intros j thr; cbn [threads]. intros Hj.
    apply lookup_app_Some in Hj as [Hj|[_ Hj]]; [by eapply Hinv|].
    by apply list_lookup_singleton_Some in Hj as [_ <-].
  - unfold worker_run. destruct (threads w !! i) as [thr|] eqn:Hi; [|done].
    destruct (_ && _); [|done]. destruct (run _ _ _ _) as [? signals].
    intros j thr'; cbn [threads]. intros Hj.
    apply list_lookup_insert_Some in Hj as [(-> & <- & _)|[_ Hj]];
      [exact (Hinv _ _ Hi)|exact (Hinv _ _ Hj)].
  - unfold worker_exit. destruct (threads w !! i) as [thr|] eqn:Hi; [|done].
    destruct (_ && _); [|done].
    intros j thr'; cbn [threads]. intros Hj.
    apply list_lookup_insert_Some in Hj as [(-> & <- & _)|[_ Hj]];
      [exact (Hinv _ _ Hi)|exact (Hinv _ _ Hj)].
  - unfold deliver. by destruct (events w) as [|[message|output|e] queue].
Qed.

(** X9: every worker the program ever creates launches its child process
    with the window's installation directory as working directory, and
    that is the directory in which [load_results] looks for the results
    file. *)
Theorem child_runs_in_script_dir os popen w i thr :
  reachable os w → threads w !! i = Some thr →
  script_path thr = script_dir (gui w)
  ∧ run os popen thr
    = run os (λ cmd _, popen cmd (script_dir (gui w))) thr
  ∧ csv_file (gui w) = joinpath (script_path thr) "search_results.csv".
Proof.
  intros Hreach Hi.
  assert (threads_in_script_dir w) as Hinv.
  { clear Hi. induction Hreach as [dir fs0|w w' _ IH Hstep].
    - intros j thr'. simpl. by rewrite lookup_nil.
    - by eapply threads_in_script_dir_step. }
  pose proof (Hinv i thr Hi) as Hpath. split; [done|]. split.
  - unfold run. by rewrite Hpath.
  - unfold csv_file. by rewrite Hpath.
Qed.

Lemma child_runs_in_script_dir_witness :
  script_path
    (mkThread "/opt/ws" [py "-p"; py "."] true false) = "/opt/ws".
Proof.
  refine (proj1 (child_runs_in_script_dir posix (λ _ _, Raise [])
                   (start_search posix (init_world "/opt/ws" ∅)) 0
                   (mkThread "/opt/ws" [py "-p"; py "."] true false) _ _)).
  - eapply reachable_step; [apply (reachable_init posix "/opt/ws" ∅)|].
    apply step_start_search. reflexivity.
  - reflexivity.
Defined.

(** ** How loading can fail *)












Lemma parse_chars_over_limit cell rest self :
  Forall (λ c, c ≠ COMMA ∧ c ≠ LF ∧ c ≠ CR) cell →
  state self = IN_FIELD →
  field_len self ≤ field_limit →
  field_limit < field_len self + N.of_nat (List.length cell) →
  parse_chars self (cell ++ rest)
  = Raise (py "field larger than field limit (131072)").
Proof.
  intros Hcell; revert self.
  induction Hcell as [|c cell (Hcomma & Hlf & Hcr) _ IH];
    intros self Hst Hle Hlt.
  { simpl in Hlt. lia. }
  cbn [app parse_chars]. unfold parse_process_char, is_newline.
  rewrite Hst.
  rewrite (proj2 (N.eqb_neq _ _) Hcomma), (proj2 (N.eqb_neq _ _) Hlf),
    (proj2 (N.eqb_neq _ _) Hcr).
  cbn [orb]. unfold parse_add_char.
  destruct (field_limit <=? field_len self) eqn:Hfull; [done|].
  apply N.leb_gt in Hfull. cbn [bind_result]. apply IH.
  - done.
  - unfold field_len in *. cbn [field]. rewrite length_app. simpl. lia.
  - unfold field_len in *. cbn [field]. rewrite length_app.
    cbn [List.length] in *. lia.
Qed.

Lemma readlines_prefix c body t :
  c ≠ LF → LF ∉ body →
  ∃ l ls, readlines (c :: body ++ t) = (c :: body ++ l) :: ls.
Proof.
  revert c; induction body as [|d body IH]; intros c Hc Hbody;
    rewrite readlines_cons, (proj2 (N.eqb_neq _ _) Hc).
  - rewrite app_nil_l. destruct (readlines t) as [|l ls]; [by exists [], []|].
    by exists l, ls.
  - apply not_elem_of_cons in Hbody as [Hd Hbody].
    rewrite <- app_comm_cons.
    destruct (IH d (not_eq_sym Hd) Hbody) as (l & ls & ->).
    by exists l, ls.
Qed.


(** X11: a results file that begins with an unquoted field of more than
    131072 characters cannot be loaded, whatever follows: [load_results]
    raises the warning "Load Error" with the reader's message and leaves
    the table and the summary as they were. *)
Theorem load_results_oversized_field fs self c cell rest :
  fs !! csv_file self = Some (c :: cell ++ rest) →
  Forall (λ c, c ≠ COMMA ∧ c ≠ DQUOTE ∧ c ≠ LF ∧ c ≠ CR) (c :: cell) →
  field_limit ≤ N.of_nat (List.length cell) →
  load_results fs self
  = set_dialogs
      (dialogs self ++
         [mkDialog Warning (py "Load Error")
            (py "Failed to load results:" ++ [LF]
             ++ py "field larger than field limit (131072)")]) self.
Proof.
  intros Hf Hplain Hlen. unfold load_results. rewrite Hf.
  assert (csv_records (c :: cell ++ rest)
          = Raise (py "field larger than field limit (131072)")) as ->;
    [|done].
  inversion Hplain as [|? ? (Hcomma & Hquote & Hlf & Hcr) Hcell]; subst.
  unfold csv_records.
  assert (CR ∉ c :: cell) as Hnocr.
  { rewrite Forall_forall in Hplain. intros Hin.
    by destruct (Hplain _ Hin) as (_ & _ & _ & ?). }
  rewrite (app_comm_cons cell rest c).
  rewrite (read_translate_app (c :: cell) _ Hnocr).
  rewrite <- app_comm_cons.
  assert (LF ∉ cell) as Hnolf.
  { rewrite Forall_forall in Hcell. intros Hin.
    by destruct (Hcell _ Hin) as (_ & _ & ? & _). }
  destruct (readlines_prefix c cell (read_translate rest) Hlf Hnolf)
    as (l & ls & ->).
  cbn [csv_reader]. unfold parse_line. cbn [parse_chars].
  unfold parse_process_char at 1. cbn [state parse_reset].
  unfold is_newline, parse_start_field, is_newline.
  rewrite (proj2 (N.eqb_neq _ _) Hcomma), (proj2 (N.eqb_neq _ _) Hlf),
    (proj2 (N.eqb_neq _ _) Hcr), (proj2 (N.eqb_neq _ _) Hquote).
  cbn [orb]. rewrite parse_add_char_ok by done. cbn [bind_result].
  rewrite parse_chars_over_limit; [done| |done| |].
  - eapply Forall_impl; [exact Hcell|]. cbn beta. tauto.
  - by cbn.
  - unfold field_len. cbn. unfold field_limit in *. lia.
Qed.

Lemma load_results_oversized_field_witness :
  let f := 97 :: replicate (N.to_nat field_limit) 97 ++ py ",x" in
  load_results {[ "/opt/ws/search_results.csv" := f ]} (init_gui "/opt/ws")
  = set_dialogs
      [mkDialog Warning (py "Load Error")
         (py "Failed to load results:" ++ [LF]
          ++ py "field larger than field limit (131072)")]
      (init_gui "/opt/ws").
Proof.
  intros f.
  apply (load_results_oversized_field _ (init_gui "/opt/ws") 97
           (replicate (N.to_nat field_limit) 97) (py ",x")).
  - apply lookup_singleton_eq.
  - constructor; [done|]. apply Forall_replicate. done.
  - rewrite length_replicate. lia.
Defined.

(** ** The terms the summary counts *)

Lemma elem_of_split sep (t : list N) c :
  c ∈ t → c = sep ∨ ∃ l, l ∈ split sep t ∧ c ∈ l.
Proof.
  induction t as [|d t IH]; [by intros ?%elem_of_nil|].
  intros [->|Hc]%elem_of_cons; cbn [split].
  - destruct (d =? sep) eqn:Hd; [left; by apply N.eqb_eq|]. right.
    destruct (split sep t) as [|l ls]; eexists; (split; [by left|by left]).
  - destruct (IH Hc) as [->|(l & Hl & Hcl)]; [by left|]. right.
    destruct (d =? sep); [exists l; split; [by right|done]|].
    destruct (split sep t) as [|l' ls]; [by apply elem_of_nil in Hl|].
    apply elem_of_cons in Hl as [->|Hl].
    + exists (d :: l'). split; [by left|by right].
    + exists l. split; [by right|done].
Qed.

Lemma split_elem_of sep (t : list N) l c :
  l ∈ split sep t → c ∈ l → c ∈ t.
Proof.
  revert l; induction t as [|d t IH]; intros l; cbn [split].
  - by intros ->%list_elem_of_singleton ?%elem_of_nil.
  - destruct (d =? sep).
    + intros [->|Hl]%elem_of_cons Hc; [by apply elem_of_nil in Hc|].
      right. by eapply IH.
    + destruct (split sep t) as [|l' ls].
      * intros ->%list_elem_of_singleton ->%list_elem_of_singleton. by left.
      * intros [->|Hl]%elem_of_cons Hc.
        -- apply elem_of_cons in Hc as [->|Hc]; [by left|].
           right. apply (IH l'); [by left|done].
        -- right. apply (IH l); [by right|done].
Qed.

Lemma nonblank_true l : nonblank l = true ↔ ∃ c, c ∈ l ∧ isspace c = false.
Proof.
  unfold nonblank. rewrite existsb_exists. split.
  - intros (c & Hc%list_elem_of_In & Hs%negb_true_iff). eauto.
  - intros (c & Hc%list_elem_of_In & Hs). exists c.
    by rewrite Hs.
Qed.

Lemma nonblank_has_line t :
  nonblank t = true →
  filter (λ line, nonblank line = true) (split LF t) ≠ [].
Proof.
  intros (c & Hc & Hs)%nonblank_true.
  destruct (elem_of_split LF t c Hc) as [->|(l & Hl & Hcl)]; [done|].
  assert (l ∈ filter (λ line, nonblank line = true) (split LF t)) as Hin.
  { apply list_elem_of_filter. split; [|done].
    apply nonblank_true. eauto. }
  intros Hnil. rewrite Hnil in Hin. by apply elem_of_nil in Hin.
Qed.

(** X12: the "Terms Count" of the summary is the number of lines that
    [prepare_search_files] writes to [.terms_list] for the same text, though
    the two are computed differently (one trims the whole text first, the
    other does not); the theme is one of those on offer.  With a blank box the count is 0 and the file is left
    alone; otherwise the file holds exactly that many lines, at least one,
    each non-empty and each ended by the platform's line separator. *)
Theorem summary_terms_count_is_lines_written os n self
    (fs : gmap string (list N)) :
  current_theme self ∈ theme_names →
  let fs' :=
    prepare_search_files os (script_dir self) (terms_edit self)
      (regex_edit self) fs in
  let terms_file := joinpath (script_dir self) ".terms_list" in
  ∃ s, summary_text (update_summary n self) = Some s
       ∧ (strip (terms_edit self) = [] →
          terms_count s = 0%nat ∧ fs' !! terms_file = fs !! terms_file)
       ∧ (strip (terms_edit self) ≠ [] →
          ∃ lines,
            fs' !! terms_file
            = Some (concat ((λ line, line ++ linesep os) <$> lines))
            ∧ List.length lines = terms_count s
            ∧ (0 < terms_count s)%nat
            ∧ Forall (λ line, line ≠ [] ∧ LF ∉ line) lines).
Proof.
  intros _ fs' terms_file.
  eexists. split; [apply summary_text_update_summary|].
  cbn [terms_count].
  assert (filter (λ t, truthy (strip t) = true) (split LF (terms_edit self))
          = filter (λ line, nonblank line = true)
                   (split LF (terms_edit self))) as ->.
  { apply list_filter_iff. intros l. by rewrite truthy_strip. }
  assert (fs' !! terms_file
          = write_list_file os (script_dir self) ".terms_list"
              (terms_edit self) fs
              !! joinpath (script_dir self) ".terms_list") as Hfs.
  { unfold fs', prepare_search_files.
    apply write_list_file_other, not_eq_sym, terms_list_ne_regex_list. }
  split.
  - intros Hblank. split.
    + rewrite filter_none; [done|].
      intros l Hl (c & Hc & Hs)%nonblank_true.
      apply strip_nil in Hblank. rewrite Forall_forall in Hblank.
      rewrite (Hblank c) in Hs; [done|]. by eapply split_elem_of.
    + rewrite Hfs. by rewrite write_list_file_blank.
  - intros Hbox.
    exists (strip <$> filter (λ line, nonblank line = true)
                        (split LF (terms_edit self))).
    split; [|split; [|split]].
    + rewrite Hfs, write_list_file_written by done.
      unfold spec_list_file. by rewrite <- list_fmap_compose.
    + by rewrite length_fmap.
    + assert (nonblank (terms_edit self) = true) as Hnb.
      { rewrite <- truthy_strip. by destruct (strip (terms_edit self)). }
      apply nonblank_has_line in Hnb.
      destruct (filter _ _); [done|simpl; lia].
    + apply Forall_fmap, Forall_forall. intros l Hl. cbn.
      apply list_elem_of_filter in Hl as [Hnb Hl]. split.
      * rewrite <- truthy_strip in Hnb. by destruct (strip l).
      * intros Hin%elem_of_strip.
        pose proof (split_no_sep LF (terms_edit self)) as Hsplit.
        rewrite Forall_forall in Hsplit. by apply (Hsplit l).
Qed.

Lemma summary_terms_count_is_lines_written_witness :
  let self :=
    set_terms_edit (py " a " ++ [LF; LF] ++ py "b") (init_gui "/opt/ws") in
  ∃ s, summary_text (update_summary 0 self) = Some s
       ∧ ∃ lines,
           prepare_search_files nt "/opt/ws" (terms_edit self) [] ∅
             !! "/opt/ws/.terms_list"
           = Some (concat ((λ line, line ++ [CR; LF]) <$> lines))
           ∧ List.length lines = terms_count s.
Proof.
  intros self.
  destruct (summary_terms_count_is_lines_written nt 0 self ∅)
    as (s & Hs & _ & Hlines); [by apply (bool_decide_unpack _)|].
  exists s. split; [exact Hs|].
  destruct Hlines as (lines & Hfile & Hlen & _); [by vm_compute|].
  exists lines. split; [exact Hfile|exact Hlen].
Defined.

(** ** Choosing a theme after a search *)

(** X13: choosing a theme renders the summary again only when the table has
    rows; the old and the new theme are among those on offer.  After a load that brought data rows, the new summary is the old
    one with the theme replaced, the total still the number of rows; after
    a load that brought none, the summary keeps the theme that was current
    when it was rendered.  The table is the same in both cases. *)
Theorem change_theme_after_load theme_name fs self f records :
  theme_name ∈ theme_names →
  current_theme self ∈ theme_names →
  fs !! csv_file self = Some f →
  csv_records f = Ok records →
  let loaded := load_results fs self in
  results_table (change_theme theme_name loaded) = results_table loaded
  ∧ ∃ s, summary_text loaded = Some s
         ∧ summary_theme s = current_theme self
         ∧ total_matches s = rowCount (results_table loaded)
         ∧ summary_text (change_theme theme_name loaded)
           = Some (mkSummary (total_matches s) (filename_matches s)
                     (content_matches s) (summary_path s)
                     (summary_case_sensitive s) (terms_count s)
                     (if tail records is [] then current_theme self
                      else theme_name)).
Proof.
  intros _ _ Hf Hr loaded. split; [apply results_table_change_theme|].
  pose proof (rowCount_load_results fs self f records Hf Hr) as Hrows.
  fold loaded in Hrows.
  assert (loaded
          = update_summary (List.length (tail records))
              (set_results_table
                 (fill_table (tail records)
                    (setRowCount (List.length (tail records))
                       (results_table self))) self)) as Hloaded
    by apply (load_results_read _ _ _ _ Hf Hr).
  eexists. split; [rewrite Hloaded; apply summary_text_update_summary|].
  cbn [summary_theme total_matches filename_matches content_matches
         summary_path summary_case_sensitive terms_count].
  split; [done|]. split; [by rewrite Hrows|].
  unfold change_theme. cbn [results_table set_current_theme].
  fold (rowCount (results_table loaded)).
  replace (results_table loaded) with
    (fill_table (tail records)
       (setRowCount (List.length (tail records)) (results_table self)))
    by by rewrite Hloaded, results_table_update_summary.
  assert (rowCount
            (fill_table (tail records)
               (setRowCount (List.length (tail records))
                  (results_table self)))
          = List.length (tail records)) as ->.
  { unfold rowCount. by rewrite length_fill_table, length_setRowCount. }
  destruct (tail records) as [|row rows] eqn:Htail.
  - cbn [List.length Nat.ltb Nat.leb].
    change (summary_text (set_current_theme theme_name loaded))
      with (summary_text loaded).
    rewrite Hloaded. by rewrite summary_text_update_summary.
  - cbn [List.length Nat.ltb Nat.leb].
    rewrite summary_text_update_summary.
    cbn [results_table path_edit case_sensitive_cb terms_edit current_theme
           set_current_theme].
    rewrite Hloaded. rewrite results_table_update_summary.
    unfold update_summary. by destruct (count_matches _).
Qed.

Lemma change_theme_after_load_witness :
  let fs : gmap string (list N) :=
    {[ "/opt/ws/search_results.csv" := py "Type,FilePath" ]} in
  summary_theme
  <$> summary_text
        (change_theme "Vampire" (load_results fs (init_gui "/opt/ws")))
  = Some "Dark Mode"%string.
Proof.
  intros fs.
  destruct (change_theme_after_load "Vampire" fs (init_gui "/opt/ws")
              (py "Type,FilePath") [[py "Type"; py "FilePath"]])
    as (_ & s & _ & _ & _ & ->).
  - by apply (bool_decide_unpack _).
  - by apply (bool_decide_unpack _).
  - reflexivity.
  - vm_compute. reflexivity.
  - reflexivity.
Defined.

(** ** Line endings of the results file *)

Lemma read_translate_write os (t : list N) :
  CR ∉ t → read_translate (write os [] t) = t.
Proof.
  unfold write. rewrite app_nil_l. unfold linesep.
  induction t as [|c t IH]; [done|].
  rewrite not_elem_of_cons. intros [Hc Ht]. rewrite bind_cons.
  destruct (c =? LF) eqn:Hlf.
  - apply N.eqb_eq in Hlf as ->. destruct os; cbn [app].
    + rewrite read_translate_cons. change (CR =? CR) with true.
      change (LF =? LF) with true. cbv iota. by rewrite IH.
    + rewrite read_translate_cons. change (LF =? CR) with false.
      cbv iota. by rewrite IH.
  - cbn [app]. rewrite read_translate_cons.
    rewrite (proj2 (N.eqb_neq c CR)) by done. by rewrite IH.
Qed.

(** X14: the results file may have the line endings of either platform.  A
    text without carriage returns that the search script writes in text
    mode, so that on Windows every line break becomes a carriage return
    and a line feed, is loaded as if it had been written as it is: the
    same table, summary and message boxes. *)
Theorem load_results_line_endings os fs self (t : list N) :
  CR ∉ t →
  load_results (<[csv_file self := write os [] t]> fs) self
  = load_results (<[csv_file self := t]> fs) self.
Proof.
  intros Ht. unfold load_results. rewrite !lookup_insert_eq.
  unfold csv_records. rewrite read_translate_write by done.
  pose proof (read_translate_app t [] Ht) as Hid.
  change (read_translate []) with (@nil N) in Hid.
  rewrite !app_nil_r in Hid. by rewrite Hid.
Qed.

Lemma load_results_line_endings_witness :
  cell_values
    (results_table
       (load_results
          {[ "/opt/ws/search_results.csv" :=
               py "Type,FilePath" ++ [CR; LF] ++ py "Content match,a.txt"
               ++ [CR; LF] ]}
          (init_gui "/opt/ws")))
  = [[py "Content match"; py "a.txt"; []; []; []; []]].
Proof.
  pose proof (load_results_line_endings nt ∅ (init_gui "/opt/ws")
                (py "Type,FilePath" ++ [LF] ++ py "Content match,a.txt"
                 ++ [LF])) as H.
  etrans; [apply (f_equal (λ g, cell_values (results_table g)))|].
  - etrans; [|apply H]; [reflexivity|].
    by apply (bool_decide_unpack _).
  - vm_compute. reflexivity.
Defined.

(** ** A whole search *)

Lemma start_search_idle os w :
  search_thread_running w = false →
  start_search os w
  = mkWorld
      (set_status_bar (py "Search in progress...")
         (set_progress_bar_visible true
            (set_search_btn_enabled false
               (set_search_thread (Some (List.length (threads w)))
                  (clear_results (gui w))))))
      (prepare_search_files os (script_dir (gui w)) (terms_edit (gui w))
         (regex_edit (gui w)) (fs w))
      (threads w ++
         [mkThread (script_dir (gui w)) (search_args os (gui w)) true false])
      (events w).
Proof. intros Hrun. unfold start_search. by rewrite Hrun. Qed.

Lemma worker_run_last os popen g fs0 ths dir args0 ev :
  worker_run os popen (List.length ths)
    (mkWorld g fs0 (ths ++ [mkThread dir args0 true false]) ev)
  = mkWorld g fs0 (ths ++ [mkThread dir args0 true true])
      (ev ++ (run os popen (mkThread dir args0 true false) []).2).
Proof.
  unfold worker_run. cbn [threads gui fs events].
  rewrite list_lookup_middle by done. cbn [isRunning has_run negb andb].
  destruct (run _ _ _ _) as [r signals]. cbn [snd script_path args].
  f_equal. rewrite insert_app_r_alt by done.
  by rewrite Nat.sub_diag.
Qed.

Lemma search_finished_on_cleared fs0 output self :
  results_table self = [] →
  log_output (search_finished fs0 output self)
  = log_output self ++ [LF :: output]
  ∧ status_bar (search_finished fs0 output self) = py "Search completed"
  ∧ search_btn_enabled (search_finished fs0 output self) = true
  ∧ save_btn_enabled (search_finished fs0 output self) = true
  ∧ progress_bar_visible (search_finished fs0 output self) = false
  ∧ tabs_index (search_finished fs0 output self) = 0%nat
  ∧ (∀ f header rows,
       fs0 !! csv_file self = Some f →
       csv_records f = Ok (header :: rows) →
       results_table (search_finished fs0 output self)
       = row_of_fields <$> rows
       ∧ dialogs (search_finished fs0 output self) = dialogs self)
  ∧ (fs0 !! csv_file self = None →
     results_table (search_finished fs0 output self) = []
     ∧ summary_text (search_finished fs0 output self) = summary_text self
     ∧ dialogs (search_finished fs0 output self) = dialogs self).
Proof.
  intros Htable. unfold search_finished.
  cbn [log_output status_bar search_btn_enabled save_btn_enabled
         progress_bar_visible tabs_index results_table summary_text dialogs
         set_tabs_index set_status_bar].
  match goal with
  | |- context [load_results fs0 ?g] => set (before := g)
  end.
  destruct (load_results_frame fs0 before)
    as (_ & _ & _ & _ & _ & _ & _ & _ & -> & -> & -> & _ & -> & _).
  split; [done|]. split; [done|]. split; [done|]. split; [done|].
  split; [done|]. split; [done|]. split.
  - intros f header rows Hf Hr.
    rewrite (load_results_read fs0 before f (header :: rows) Hf Hr).
    rewrite results_table_update_summary, dialogs_update_summary.
    split; [|done].
    cbn [results_table tail set_results_table before set_log_output
           set_progress_bar_visible set_save_btn_enabled
           set_search_btn_enabled].
    rewrite Htable. apply fill_table_fresh.
  - intros Hf. by rewrite (load_results_none fs0 before Hf).
Qed.

(** X15: a search from the click to the table, when the script exits with
    code 0.  From any state in which no search is running, no signal is
    waiting and the theme is one of those on offer: the click starts one child, [bash File-FY.sh] or the
    PowerShell line followed by the arguments built from the fields, in the
    installation directory; once its two signals are delivered the log
    holds "Starting search..." and the script's output, the status bar
    reads "Search completed", both buttons are enabled and the progress bar
    is hidden.  The table then holds the data rows of the results file as
    it is on disk at that moment; if there is no such file the table is
    empty and the summary blank, although the save button is enabled. *)
Theorem search_exits_zero os popen w process stdout stderr fs' :
  search_thread_running w = false →
  events w = [] →
  current_theme (gui w) ∈ theme_names →
  let cmd :=
    match os with
    | nt => py <$> ["powershell"; "-ExecutionPolicy"; "Bypass"; "-File";
                    "File-FY.ps1"]%string
    | posix => py <$> ["bash"; "File-FY.sh"]%string
    end ++ search_args os (gui w) in
  popen cmd (script_dir (gui w)) = Ok process →
  communicate process = Ok (stdout, stderr) →
  returncode process = 0%Z →
  let started := worker_run os popen (List.length (threads w))
                   (start_search os w) in
  let final :=
    deliver (deliver (mkWorld (gui started) fs' (threads started)
                        (events started))) in
  log_output (gui final) = [py "Starting search..."; LF :: stdout]
  ∧ status_bar (gui final) = py "Search completed"
  ∧ search_btn_enabled (gui final) = true
  ∧ save_btn_enabled (gui final) = true
  ∧ progress_bar_visible (gui final) = false
  ∧ tabs_index (gui final) = 0%nat
  ∧ events final = []
  ∧ (∀ f header rows,
       fs' !! csv_file (gui w) = Some f →
       csv_records f = Ok (header :: rows) →
       results_table (gui final) = row_of_fields <$> rows
       ∧ dialogs (gui final) = dialogs (gui w))
  ∧ (fs' !! csv_file (gui w) = None →
     results_table (gui final) = []
     ∧ summary_text (gui final) = None
     ∧ dialogs (gui final) = dialogs (gui w)).
Proof.
  intros Hidle Hev _ cmd Hpopen Hcomm Hret started final.
  assert (run os popen
            (mkThread (script_dir (gui w)) (search_args os (gui w))
               true false) []
          = (Ok (), [progress (py "Starting search..."); finished stdout]))
    as Hrun.
  { rewrite run_unfold.
    replace (run_cmd os _) with cmd by by destruct os.
    cbn [script_path]. by rewrite Hpopen, Hcomm, Hret. }
  subst final started.
  rewrite (start_search_idle os w Hidle), worker_run_last, Hrun, Hev.
  cbn [snd app gui threads events deliver fs].
  match goal with
  | |- context [search_finished fs' stdout ?g] =>
      destruct (search_finished_on_cleared fs' stdout g eq_refl)
        as (-> & -> & -> & -> & -> & -> & Hsome & Hnone)
  end.
  split; [done|]. split; [done|]. split; [done|]. split; [done|].
  split; [done|]. split; [done|]. split; [done|]. split.
  - intros f header rows Hf Hr. by apply (Hsome f header rows).
  - intros Hf. by apply Hnone.
Qed.

Lemma search_exits_zero_witness :
  let popen := λ (_ : list (list N)) (_ : string),
                 Ok (mkPopen (Ok (py "2 matches", [])) 0) in
  let w := init_world "/opt/ws" ∅ in
  let started := worker_run posix popen 0 (start_search posix w) in
  let final :=
    deliver (deliver (mkWorld (gui started) ∅ (threads started)
                        (events started))) in
  log_output (gui final) = [py "Starting search..."; LF :: py "2 matches"]
  ∧ save_btn_enabled (gui final) = true
  ∧ results_table (gui final) = [].
Proof.
  intros popen w started final.
  destruct (search_exits_zero posix popen w
              (mkPopen (Ok (py "2 matches", [])) 0) (py "2 matches") [] ∅)
    as (Hlog & _ & _ & Hsave & _ & _ & _ & _ & Hnone);
    [reflexivity|reflexivity|by apply (bool_decide_unpack _)
    |reflexivity..|].
  split; [exact Hlog|]. split; [exact Hsave|].
  apply Hnone. reflexivity.
Defined.

(** X16: a search from the click to the error box, when the script exits
    with another code or cannot be run at all.  From any state in which no
    search is running and no signal is waiting, once the worker's two
    signals are delivered: the log holds "Starting search..." and a line
    [ERROR: ] followed by [Error: ] and the script's error output, or by
    [Failed to run search: ] and the exception's message; one critical box,
    "Search Error", carries the same message; the table is empty, the
    summary blank, the save button disabled, the search button enabled
    again; and the only files changed are the two list files. *)
Theorem search_fails os popen w message :
  search_thread_running w = false →
  events w = [] →
  let cmd :=
    match os with
    | nt => py <$> ["powershell"; "-ExecutionPolicy"; "Bypass"; "-File";
                    "File-FY.ps1"]%string
    | posix => py <$> ["bash"; "File-FY.sh"]%string
    end ++ search_args os (gui w) in
  (∃ process stdout stderr,
     popen cmd (script_dir (gui w)) = Ok process
     ∧ communicate process = Ok (stdout, stderr)
     ∧ returncode process ≠ 0%Z
     ∧ message = py "Error: " ++ stderr)
  ∨ (∃ e, popen cmd (script_dir (gui w)) = Raise e
          ∧ message = py "Failed to run search: " ++ e)
  ∨ (∃ process e,
       popen cmd (script_dir (gui w)) = Ok process
       ∧ communicate process = Raise e
       ∧ message = py "Failed to run search: " ++ e) →
  let final :=
    deliver (deliver (worker_run os popen (List.length (threads w))
                        (start_search os w))) in
  log_output (gui final)
  = [py "Starting search..."; LF :: py "ERROR: " ++ message]
  ∧ dialogs (gui final)
    = dialogs (gui w) ++
        [mkDialog Critical (py "Search Error")
           (py "Search failed:" ++ [LF] ++ message)]
  ∧ status_bar (gui final) = py "Search failed"
  ∧ results_table (gui final) = []
  ∧ summary_text (gui final) = None
  ∧ save_btn_enabled (gui final) = false
  ∧ search_btn_enabled (gui final) = true
  ∧ progress_bar_visible (gui final) = false
  ∧ events final = []
  ∧ fs final
    = prepare_search_files os (script_dir (gui w)) (terms_edit (gui w))
        (regex_edit (gui w)) (fs w).
Proof.
  intros Hidle Hev cmd Hfail final.
  assert (run os popen
            (mkThread (script_dir (gui w)) (search_args os (gui w))
               true false) []
          = (Ok (), [progress (py "Starting search..."); error message]))
    as Hrun.
  { rewrite run_unfold.
    replace (run_cmd os _) with cmd by by destruct os.
    cbn [script_path].
    destruct Hfail as [(process & stdout & stderr & -> & -> & Hret & ->)
                      |[(e & -> & ->)|(process & e & -> & -> & ->)]];
      [|done..].
    by rewrite (proj2 (Z.eqb_neq _ _) Hret). }
  subst final.
  rewrite (start_search_idle os w Hidle), worker_run_last, Hrun, Hev.
  cbn [snd app gui threads events deliver fs].
  repeat split; done.
Qed.

Lemma search_fails_witness :
  let popen := λ (_ : list (list N)) (_ : string),
                 Ok (mkPopen (Ok ([], py "no such directory")) 2) in
  let w := init_world "/opt/ws" ∅ in
  log_output
    (gui (deliver (deliver (worker_run nt popen 0 (start_search nt w)))))
  = [py "Starting search...";
     LF :: py "ERROR: Error: no such directory"].
Proof.
  intros popen w.
  refine (proj1 (search_fails nt popen w (py "Error: no such directory")
                   _ _ _)).
  - reflexivity.
  - reflexivity.
  - left. exists (mkPopen (Ok ([], py "no such directory")) 2), [],
      (py "no such directory").
    split; [reflexivity|]. split; [reflexivity|].
    split; [done|reflexivity].
Defined.

(** X17: results of an earlier search can come back as new (no search
    running, no signal waiting, a theme of those on offer).  Starting a
    search clears the table but leaves the results file on disk, and
    [search_finished] loads whatever that file holds: when the script exits
    with code 0 without writing the file, the table shows the rows of the
    earlier file again, under "Search completed" and with the save button
    enabled. *)
Theorem earlier_results_shown_again
    os popen w process stdout stderr f header rows :
  search_thread_running w = false →
  events w = [] →
  current_theme (gui w) ∈ theme_names →
  fs w !! csv_file (gui w) = Some f →
  csv_records f = Ok (header :: rows) →
  popen
    (match os with
     | nt => py <$> ["powershell"; "-ExecutionPolicy"; "Bypass"; "-File";
                     "File-FY.ps1"]%string
     | posix => py <$> ["bash"; "File-FY.sh"]%string
     end ++ search_args os (gui w))
    (script_dir (gui w)) = Ok process →
  communicate process = Ok (stdout, stderr) →
  returncode process = 0%Z →
  let started := start_search os w in
  let final :=
    deliver (deliver (worker_run os popen (List.length (threads w))
                        started)) in
  results_table (gui started) = []
  ∧ results_table (gui final) = row_of_fields <$> rows
  ∧ status_bar (gui final) = py "Search completed"
  ∧ save_btn_enabled (gui final) = true
  ∧ dialogs (gui final) = dialogs (gui w).
Proof.
  intros Hidle Hev _ Hf Hr Hpopen Hcomm Hret started final.
  assert (run os popen
            (mkThread (script_dir (gui w)) (search_args os (gui w))
               true false) []
          = (Ok (), [progress (py "Starting search..."); finished stdout]))
    as Hrun.
  { rewrite run_unfold.
    replace (run_cmd os _) with
      (match os with
       | nt => py <$> ["powershell"; "-ExecutionPolicy"; "Bypass"; "-File";
                       "File-FY.ps1"]%string
       | posix => py <$> ["bash"; "File-FY.sh"]%string
       end ++ search_args os (gui w)) by by destruct os.
    cbn [script_path]. by rewrite Hpopen, Hcomm, Hret. }
  assert (fs started !! csv_file (gui w) = Some f) as Hkept.
  { rewrite <- Hf. subst started.
    destruct (fs_start_search os w) as [->| ->]; [done|].
    unfold prepare_search_files, csv_file.
    rewrite !write_list_file_other; [done|..];
      intros Heq; by apply joinpath_inj in Heq. }
  subst final started.
  rewrite (start_search_idle os w Hidle) in Hkept |- *.
  rewrite worker_run_last, Hrun, Hev.
  cbn [snd app gui threads events deliver fs] in Hkept |- *.
  split; [done|].
  match goal with
  | |- context [search_finished ?fs0 stdout ?g] =>
      destruct (search_finished_on_cleared fs0 stdout g eq_refl)
        as (_ & -> & _ & -> & _ & _ & Hsome & _)
  end.
  destruct (Hsome f header rows Hkept Hr) as [-> ->]. done.
Qed.

Lemma earlier_results_shown_again_witness :
  let popen := λ (_ : list (list N)) (_ : string),
                 Ok (mkPopen (Ok ([], [])) 0) in
  let w :=
    init_world "/opt/ws"
      {[ "/opt/ws/search_results.csv" :=
           py "Type,FilePath" ++ [LF] ++ py "Content match,old.txt"
           ++ [LF] ]} in
  results_table
    (gui (deliver (deliver (worker_run posix popen 0
                              (start_search posix w)))))
  = [[Some (py "Content match"); Some (py "old.txt");
      None; None; None; None]].
Proof.
  intros popen w.
  destruct (earlier_results_shown_again posix popen w
              (mkPopen (Ok ([], [])) 0) [] []
              (py "Type,FilePath" ++ [LF] ++ py "Content match,old.txt"
               ++ [LF])
              [py "Type"; py "FilePath"]
              [[py "Content match"; py "old.txt"]])
    as (_ & Htable & _).
  - reflexivity.
  - reflexivity.
  - by apply (bool_decide_unpack _).
  - reflexivity.
  - vm_compute. reflexivity.
  - reflexivity.
  - reflexivity.
  - reflexivity.
  - exact Htable.
Defined.

(** ** The text export on the two platforms *)

Lemma write_posix f s : write posix f s = f ++ s.
Proof.
  unfold write. f_equal. induction s as [|c s IH]; [done|].
  rewrite bind_cons, IH. by destruct (c =? LF) eqn:Hc;
    [apply N.eqb_eq in Hc as ->|].
Qed.

Lemma write_as_posix os f s :
  write os (write os [] f) s = write os [] (write posix f s).
Proof. rewrite write_posix. unfold write. by rewrite !app_nil_l, bind_app. Qed.

Lemma foldl_write_as_posix {A} os (step_os step_posix : list N → A → list N)
    (l : list A) f :
  (∀ f x, step_os (write os [] f) x = write os [] (step_posix f x)) →
  foldl step_os (write os [] f) l = write os [] (foldl step_posix f l).
Proof.
  intros Hstep. revert f; induction l as [|x l IH]; intros f; [done|].
  cbn [foldl]. by rewrite Hstep, IH.
Qed.

(** X18: the text export is the same on both platforms but for its line
    endings: what is written on Windows is what is written elsewhere with
    every line feed, those inside cell values included, turned into a
    carriage return and a line feed. *)
Theorem save_as_text_platforms os file_path self (fs : gmap string (list N)) :
  ∃ content,
    save_as_text posix file_path self fs = <[file_path := content]> fs
    ∧ save_as_text os file_path self fs
      = <[file_path := write os [] content]> fs.
Proof.
  eexists. split; [reflexivity|].
  unfold save_as_text. f_equal.
  rewrite <- (write_posix [] (py "WordSearch Results" ++ [LF])) at 1.
  rewrite !write_as_posix.
  apply foldl_write_as_posix. intros f row. cbn beta zeta.
  rewrite (write_as_posix os f).
  rewrite (foldl_write_as_posix os _
             (λ f col,
                write posix f
                  (py "  " ++ header_text col ++ py ": "
                   ++ cell_text row col (results_table self) ++ [LF])))
    by (intros; apply write_as_posix).
  apply write_as_posix.
Qed.
